(** * netsync/block_keeper.go: the block keeper of the synchronisation engine

    A shallow embedding of [blockKeeper] and of its methods [IsCaughtUp],
    [BlockRequestWorker], [BlockRequest] and [txsProcessWorker].

    - [uint64] values are integers in [Z]; the wrap-around of [+ 1] and of
      [num--] is written out with [wrap64].
    - A Go pointer that the code dereferences is an [option]; dereferencing
      [nil] is the outcome [Panicked].
    - The chain, the peer set and the switch are collaborators of the block
      keeper whose code lives in other files: they are the operations of the
      class [Collaborators], pure functions on the collaborator's own state.
    - The [select] of [BlockRequest] waits on four channels.  Which case
      fires, and with which value, is decided by the environment: the model
      takes the sequence of fired cases as a schedule ([sched]).  A schedule
      that is used up means that the call is still waiting ([Blocked]).
    - [AddBlock] and [AddTx] only send on [pendingProcessCh] and
      [txsProcessCh]; what they send reaches the model as [EvPending] events
      of the schedule and as the queue of [txsProcessWorker].
    - The constants [syncTimeout] and [requestRetryTicker] only decide when
      the deadline and the retry ticker fire; in the model that is part of
      the schedule.
    - Every call of a collaborator is appended to [calls], so that "is
      called", "is not called" and "is called before" can be stated. *)

From Stdlib Require Import ZArith List String Bool Lia.
Import ListNotations.
Open Scope Z_scope.

(** ** Machine integers *)

Definition uint64_modulus : Z := 2 ^ 64.
Definition uint64_max : Z := 2 ^ 64 - 1.

(** The value an [uint64] holds after an arithmetic result [z]. *)
Definition wrap64 (z : Z) : Z := z mod uint64_modulus.

Definition is_uint64 (z : Z) : Prop := 0 <= z <= uint64_max.

(** [strings.Compare]: -1, 0 or 1. *)
Definition strings_Compare (a b : string) : Z :=
  match String.compare a b with
  | Eq => 0
  | Lt => -1
  | Gt => 1
  end.

(** ** Errors *)

(** The five error values of the file, the errors made elsewhere, and the
    wrapper of package [errors]. *)
Inductive error : Type :=
| errGetBlockTimeout
| errPeerDropped
| errCommAbnorm
| errScamPeer
| errReqBlock
| errForeign (msg : string)
| errWrapper (msg : string) (root : error).

Definition error_eq_dec : forall a b : error, {a = b} + {a <> b}.
Proof. decide equality; apply string_dec. Defined.

(** Modelled from the spec: [errors.Root] of package [github.com/bytom/errors],
    which is not part of this file.  The spec calls its use "classifying by
    underlying error identity": the root of a wrapper is the error it wraps,
    any other error (and [nil]) is its own root. *)
Definition Root (e : option error) : option error :=
  match e with
  | Some (errWrapper _ r) => Some r
  | _ => e
  end.

(** [a == b] where [a] is an [error] interface value and [b] an error value. *)
Definition err_is (a : option error) (b : error) : bool :=
  match a with
  | Some e => if error_eq_dec e b then true else false
  | None => false
  end.

(** ** Data *)

Definition Hash : Type := Z.

(** [types.Block]: of its header the code reads [Height]; [BlockHash]
    stands for the result of [block.Hash()]. *)
Record Block : Type := mkBlock {
  Height : Z;
  PreviousBlockHash : Hash;
  BlockHash : Hash
}.

(** [types.Tx]: the code reads [tx.ID]. *)
Record Tx : Type := mkTx {
  ID : Hash
}.

Record pendingResponse : Type := mkPendingResponse {
  block : option Block;
  peerID : string
}.

Record txsNotify : Type := mkTxsNotify {
  tx : option Tx;
  tx_peerID : string
}.

(** One fired case of the [select] in [BlockRequest]. *)
Inductive Event : Type :=
| EvPending (r : pendingResponse)   (* <-bk.pendingProcessCh *)
| EvRetryTick                       (* <-retryTicker *)
| EvSyncTimeout                     (* <-syncWait.C *)
| EvQuit (peerid : option string).  (* <-bk.quitReqBlockCh, a *string *)

(** ** Collaborators *)

(** The chain ([protocol.Chain]), the peer set ([peerSet]) and the switch
    ([p2p.Switch]) are used through the methods below; their code is in
    other files, so they are parameters of the development.  Each method is
    a function of the collaborator's state that returns the new state
    together with the results of the Go method.  [peers_Peer] followed by
    [getPeer] is [bk.peers.Peer(peerID).getPeer()], which yields the peer
    handle that the switch penalizes. *)
Class Collaborators : Type := {
  Chain : Type;
  PeerSet : Type;
  Switch : Type;
  peer : Type;
  SwPeer : Type;
  (* protocol.Chain *)
  chain_Height : Chain -> Z;
  chain_ProcessBlock : Chain -> option Block -> Chain * (bool * option error);
  chain_ValidateTx : Chain -> Tx -> Chain * (bool * option error);
  (* peerSet *)
  peers_BestPeer : PeerSet -> option SwPeer * Z;
  peers_requestBlockByHeight : PeerSet -> string -> Z -> PeerSet * option error;
  peers_DropPeer : PeerSet -> string -> PeerSet;
  peers_MarkTransaction : PeerSet -> string -> Hash -> PeerSet;
  peers_Peer : PeerSet -> string -> peer;
  getPeer : peer -> SwPeer;
  (* p2p.Switch *)
  sw_AddScamPeer : Switch -> SwPeer -> Switch
}.

Section BlockKeeper.

Context {C : Collaborators}.

(** A call of a collaborator, with its arguments. *)
Inductive Call : Type :=
| CHeight
| CProcessBlock (b : option Block)
| CValidateTx (t : Tx)
| CBestPeer
| CRequestBlockByHeight (p : string) (height : Z)
| CDropPeer (p : string)
| CMarkTransaction (p : string) (id : Hash)
| CPeer (p : string)
| CAddScamPeer (p : SwPeer).

(** The block keeper with its collaborators, what the environment will
    deliver to the [select] of [BlockRequest], and the calls made so far. *)
Record blockKeeper : Type := mkBlockKeeper {
  chain : Chain;
  sw : Switch;
  peers : PeerSet;
  sched : list Event;
  calls : list Call
}.

Definition set_chain (c : Chain) (bk : blockKeeper) : blockKeeper :=
  mkBlockKeeper c (sw bk) (peers bk) (sched bk) (calls bk).
Definition set_sw (s : Switch) (bk : blockKeeper) : blockKeeper :=
  mkBlockKeeper (chain bk) s (peers bk) (sched bk) (calls bk).
Definition set_peers (p : PeerSet) (bk : blockKeeper) : blockKeeper :=
  mkBlockKeeper (chain bk) (sw bk) p (sched bk) (calls bk).
Definition set_sched (evs : list Event) (bk : blockKeeper) : blockKeeper :=
  mkBlockKeeper (chain bk) (sw bk) (peers bk) evs (calls bk).
Definition record (c : Call) (bk : blockKeeper) : blockKeeper :=
  mkBlockKeeper (chain bk) (sw bk) (peers bk) (sched bk) (calls bk ++ [c]).

(** ** The monad of the methods *)

Inductive Outcome (A : Type) : Type :=
| Done (a : A) (bk : blockKeeper)   (* the call returned [a] *)
| Panicked (bk : blockKeeper)       (* nil pointer dereference *)
| Blocked (bk : blockKeeper).       (* still waiting in a receive *)

Arguments Done {A} a bk.
Arguments Panicked {A} bk.
Arguments Blocked {A} bk.

Definition M (A : Type) : Type := blockKeeper -> Outcome A.

Definition ret {A : Type} (a : A) : M A := fun bk => Done a bk.

Definition bind {A B : Type} (m : M A) (k : A -> M B) : M B :=
  fun bk =>
    match m bk with
    | Done a bk' => k a bk'
    | Panicked bk' => Panicked bk'
    | Blocked bk' => Blocked bk'
    end.

Definition returned {A : Type} (o : Outcome A) : option A :=
  match o with
  | Done a _ => Some a
  | _ => None
  end.

Definition final {A : Type} (o : Outcome A) : blockKeeper :=
  match o with
  | Done _ bk => bk
  | Panicked bk => bk
  | Blocked bk => bk
  end.

Notation "x <- m ;; k" := (bind m (fun x => k))
  (at level 100, m at next level, right associativity).
Notation "' p <- m ;; k" := (bind m (fun x => let 'p := x in k))
  (at level 100, p pattern, m at next level, right associativity).

(** Dereference of a pointer. *)
Definition deref {A : Type} (p : option A) : M A :=
  fun bk =>
    match p with
    | Some a => Done a bk
    | None => Panicked bk
    end.

(** *** Calls of the collaborators *)

Definition call_Height : M Z :=
  fun bk => Done (chain_Height (chain bk)) (record CHeight bk).

Definition call_ProcessBlock (b : option Block) : M (bool * option error) :=
  fun bk =>
    let (c, r) := chain_ProcessBlock (chain bk) b in
    Done r (record (CProcessBlock b) (set_chain c bk)).

Definition call_ValidateTx (t : Tx) : M (bool * option error) :=
  fun bk =>
    let (c, r) := chain_ValidateTx (chain bk) t in
    Done r (record (CValidateTx t) (set_chain c bk)).

Definition call_BestPeer : M (option SwPeer * Z) :=
  fun bk => Done (peers_BestPeer (peers bk)) (record CBestPeer bk).

Definition call_requestBlockByHeight (p : string) (height : Z) : M (option error) :=
  fun bk =>
    let (ps, r) := peers_requestBlockByHeight (peers bk) p height in
    Done r (record (CRequestBlockByHeight p height) (set_peers ps bk)).

Definition call_DropPeer (p : string) : M unit :=
  fun bk => Done tt (record (CDropPeer p) (set_peers (peers_DropPeer (peers bk) p) bk)).

Definition call_MarkTransaction (p : string) (id : Hash) : M unit :=
  fun bk =>
    Done tt (record (CMarkTransaction p id)
               (set_peers (peers_MarkTransaction (peers bk) p id) bk)).

Definition call_Peer (p : string) : M peer :=
  fun bk => Done (peers_Peer (peers bk) p) (record (CPeer p) bk).

Definition call_AddScamPeer (p : SwPeer) : M unit :=
  fun bk => Done tt (record (CAddScamPeer p) (set_sw (sw_AddScamPeer (sw bk) p) bk)).

(** ** IsCaughtUp *)

Definition IsCaughtUp : M bool :=
  '(_, height) <- call_BestPeer ;;
  h <- call_Height ;;
  ret (h <? height).

(** ** BlockRequest *)

Definition blockRequest (p : string) (height : Z) : M (option error) :=
  call_requestBlockByHeight p height.

(** The [for { select { ... } }] loop, by recursion on what the environment
    delivers; the part that was not consumed stays in [sched]. *)
Fixpoint BlockRequest_wait (p : string) (height : Z) (evs : list Event)
  : M (option Block * option error) :=
  fun bk =>
    match evs with
    | [] => Blocked (set_sched [] bk)
    | EvPending r :: evs' =>
        if negb (strings_Compare (peerID r) p =? 0)
        then BlockRequest_wait p height evs' bk
        else
          match block r with
          | None => Panicked (set_sched evs' bk)
          | Some b =>
              if negb (Height b =? height)
              then BlockRequest_wait p height evs' bk
              else Done (Some b, None) (set_sched evs' bk)
          end
    | EvRetryTick :: evs' =>
        match blockRequest p height bk with
        | Done (Some _) bk' => Done (None, Some errReqBlock) (set_sched evs' bk')
        | Done None bk' => BlockRequest_wait p height evs' bk'
        | Panicked bk' => Panicked (set_sched evs' bk')
        | Blocked bk' => Blocked (set_sched evs' bk')
        end
    | EvSyncTimeout :: evs' =>
        Done (None, Some errGetBlockTimeout) (set_sched evs' bk)
    | EvQuit None :: evs' => Panicked (set_sched evs' bk)
    | EvQuit (Some q) :: evs' =>
        if strings_Compare q p =? 0
        then Done (None, Some errPeerDropped) (set_sched evs' bk)
        else BlockRequest_wait p height evs' bk
    end.

Definition BlockRequest (p : string) (height : Z) : M (option Block * option error) :=
  err <- blockRequest p height ;;
  match err with
  | Some _ => ret (None, Some errReqBlock)
  | None => fun bk => BlockRequest_wait p height (sched bk) bk
  end.

(** ** BlockRequestWorker *)

(** How one pass through the body of the [for] loop ends. *)
Inductive LoopCtl : Type :=
| Continue (num : Z)          (* back to the loop condition, with this cursor *)
| Return (e : option error).  (* [return e] *)

Definition worker_body (p : string) (num : Z) : M LoopCtl :=
  '(blk, err) <- BlockRequest p num ;;
  if err_is (Root err) errPeerDropped
     || err_is (Root err) errGetBlockTimeout
     || err_is (Root err) errReqBlock
  then
    _ <- call_DropPeer p ;;
    ret (Return (Some errCommAbnorm))
  else
    '(isOrphan, err) <- call_ProcessBlock blk ;;
    match err with
    | Some _ =>
        pr <- call_Peer p ;;
        _ <- call_AddScamPeer (getPeer pr) ;;
        _ <- deref blk ;;            (* block.Hash() of the log line *)
        ret (Return (Some errScamPeer))
    | None =>
        if isOrphan
        then ret (Continue (wrap64 (num - 1)))
        else
          h <- call_Height ;;
          ret (Continue (wrap64 (h + 1)))
    end.

(** [for num <= maxPeerHeight { body }].  A pass that continues has taken at
    least one event from the schedule, so [fuel] larger than the length of
    the schedule is never used up (lemma [worker_loop_fuel]). *)
Fixpoint worker_loop (fuel : nat) (p : string) (maxPeerHeight num : Z)
  : M (option error) :=
  fun bk =>
    if num <=? maxPeerHeight
    then
      match fuel with
      | O => Blocked bk
      | S fuel' =>
          match worker_body p num bk with
          | Done (Continue num') bk' => worker_loop fuel' p maxPeerHeight num' bk'
          | Done (Return e) bk' => Done e bk'
          | Panicked bk' => Panicked bk'
          | Blocked bk' => Blocked bk'
          end
      end
    else Done None bk.

Definition BlockRequestWorker (p : string) (maxPeerHeight : Z) : M (option error) :=
  chainHeight <- call_Height ;;
  fun bk =>
    worker_loop (S (List.length (sched bk))) p maxPeerHeight (wrap64 (chainHeight + 1)) bk.

(** ** txsProcessWorker *)

(** The body of [for txsResponse := range bk.txsProcessCh]. *)
Definition txsProcess_body (txsResponse : txsNotify) : M unit :=
  t <- deref (tx txsResponse) ;;     (* tx.ID.String() of the log line *)
  _ <- call_MarkTransaction (tx_peerID txsResponse) (ID t) ;;
  '(isOrphan, err) <- call_ValidateTx t ;;
  if (match err with Some _ => true | None => false end) && Bool.eqb isOrphan false
  then
    pr <- call_Peer (tx_peerID txsResponse) ;;
    call_AddScamPeer (getPeer pr)
  else ret tt.

(** [queue] is what is sent on [txsProcessCh] from now on, [closed] whether
    the channel is closed after that. *)
Fixpoint txsProcessWorker (queue : list txsNotify) (closed : bool) : M unit :=
  match queue with
  | [] => if closed then ret tt else fun bk => Blocked bk
  | txsResponse :: queue' =>
      _ <- txsProcess_body txsResponse ;;
      txsProcessWorker queue' closed
  end.

End BlockKeeper.

Arguments Done {C A} a bk.
Arguments Panicked {C A} bk.
Arguments Blocked {C A} bk.

(** ** A concrete set of collaborators *)

(** Modelled from the spec: the chain, the peer set and the switch, whose
    code is not in this file, as far as the runs below need them (the
    interfaces of the spec's section 6 and its glossary entry for orphans).
    A small chain, peer set and switch on which the methods can be run.  The
    chain has nothing to do with a block it already has as its tip, accepts
    a block that extends its tip by one, calls a block whose parent it does
    not know an orphan and rejects anything else; the peer set
    dispatches a request to a registered peer as long as the transport has
    [quota] left. *)
Module Mock.

Record chainT : Type := mkChain {
  tip_height : Z;
  tip_hash : Hash;
  bad_blocks : list Hash;    (* blocks that do not validate *)
  orphan_txs : list Hash;    (* transactions with an unknown input *)
  invalid_txs : list Hash    (* transactions that do not validate *)
}.

Record peerSetT : Type := mkPeerSet {
  registered : list string;
  best : Z;
  quota : nat;
  marked : list (string * Hash)
}.

Definition mem_hash (h : Hash) (l : list Hash) : bool := existsb (Z.eqb h) l.
Definition mem_peer (p : string) (l : list string) : bool := existsb (String.eqb p) l.

Definition ProcessBlock (c : chainT) (ob : option Block)
  : chainT * (bool * option error) :=
  match ob with
  | None => (c, (false, Some (errForeign "nil block")))
  | Some b =>
      if BlockHash b =? tip_hash c
      then (c, (false, None))
      else if PreviousBlockHash b =? tip_hash c
      then
        if (Height b =? tip_height c + 1)
           && negb (mem_hash (BlockHash b) (bad_blocks c))
        then (mkChain (Height b) (BlockHash b)
                (bad_blocks c) (orphan_txs c) (invalid_txs c),
              (false, None))
        else (c, (false, Some (errForeign "invalid block")))
      else (c, (true, None))
  end.

Definition ValidateTx (c : chainT) (t : Tx) : chainT * (bool * option error) :=
  (c, (mem_hash (ID t) (orphan_txs c),
       if mem_hash (ID t) (invalid_txs c)
       then Some (errForeign "invalid tx") else None)).

Definition requestBlockByHeight (ps : peerSetT) (p : string) (h : Z)
  : peerSetT * option error :=
  if mem_peer p (registered ps)
  then
    match quota ps with
    | O => (ps, Some (errForeign "send failed"))
    | S q => (mkPeerSet (registered ps) (best ps) q (marked ps), None)
    end
  else (ps, Some (errForeign "peer not found")).

Definition DropPeer (ps : peerSetT) (p : string) : peerSetT :=
  mkPeerSet (filter (fun q => negb (String.eqb q p)) (registered ps))
            (best ps) (quota ps) (marked ps).

Definition MarkTransaction (ps : peerSetT) (p : string) (id : Hash) : peerSetT :=
  mkPeerSet (registered ps) (best ps) (quota ps) (marked ps ++ [(p, id)]).

Definition collaborators : Collaborators := {|
  Chain := chainT;
  PeerSet := peerSetT;
  Switch := list string;
  peer := string;
  SwPeer := string;
  chain_Height := tip_height;
  chain_ProcessBlock := ProcessBlock;
  chain_ValidateTx := ValidateTx;
  peers_BestPeer := fun ps => (None, best ps);
  peers_requestBlockByHeight := requestBlockByHeight;
  peers_DropPeer := DropPeer;
  peers_MarkTransaction := MarkTransaction;
  peers_Peer := fun _ p => p;
  getPeer := fun p => p;
  sw_AddScamPeer := fun s p => s ++ [p]
|}.

(** A block keeper on the chain [c], with the peers [ps] and the schedule
    [evs]. *)
Definition keeper_on (c : chainT) (ps : peerSetT) (evs : list Event)
  : @blockKeeper collaborators :=
  @mkBlockKeeper collaborators c [] ps evs [].

(** The same at local height [h], the tip having hash [h]. *)
Definition keeper (h : Z) (ps : peerSetT) (evs : list Event)
  : @blockKeeper collaborators :=
  keeper_on (mkChain h h [] [] []) ps evs.

(** The block of height [h] that extends the block of hash [h - 1]. *)
Definition good_block (h : Z) : Block := mkBlock h (h - 1) h.

(** A block of height [h] whose parent nobody knows. *)
Definition stray_block (h : Z) : Block := mkBlock h (-1) (-h - 2).

Definition from_peer (p : string) (b : Block) : Event :=
  EvPending (mkPendingResponse (Some b) p).

(** Two registered peers, the best at height 13, and a transport that
    takes ten requests. *)
Definition two_peers : peerSetT := mkPeerSet ["a"; "b"]%string 13 10 [].

(** Local height 10; the peer serves blocks 11, 12 and 13 in order. *)
Definition three_blocks : @blockKeeper collaborators :=
  keeper 10 two_peers
    [from_peer "a" (good_block 11); from_peer "a" (good_block 12);
     from_peer "a" (good_block 13)].

(** Local height 10; the peer never answers: a retry, then the deadline. *)
Definition silent_peer : @blockKeeper collaborators :=
  keeper 10 two_peers [EvRetryTick; EvSyncTimeout].

(** Local height 0; the peer answers the requests of blocks 1 and 0 with
    orphans, then falls silent. *)
Definition orphans_to_zero : @blockKeeper collaborators :=
  keeper 0 two_peers
    [from_peer "a" (stray_block 1); from_peer "a" (stray_block 0);
     EvSyncTimeout].

(** Local height 10; the chain rejects the block 11 that the peer serves. *)
Definition bad_block : @blockKeeper collaborators :=
  keeper_on (mkChain 10 10 [11] [] []) two_peers [from_peer "a" (good_block 11)].

(** Local height 10; the peer answers the request of block 11 with an
    orphan of that height. *)
Definition one_orphan : @blockKeeper collaborators :=
  keeper 10 two_peers [from_peer "a" (stray_block 11)].

(** Responses to the request of block 11 to peer a: one from another peer,
    one of another height, the answer, and a late one. *)
Definition crossed_responses : list pendingResponse :=
  [mkPendingResponse (Some (good_block 11)) "b";
   mkPendingResponse (Some (good_block 12)) "a";
   mkPendingResponse (Some (good_block 11)) "a";
   mkPendingResponse (Some (good_block 13)) "a"].

Definition crossed : @blockKeeper collaborators :=
  keeper 10 two_peers (map EvPending crossed_responses ++ [EvSyncTimeout]).

(** A chain for which transaction 2 is an orphan, 3 is invalid and 4 both. *)
Definition tx_chain : chainT := mkChain 10 10 [] [2; 4] [3; 4].

Definition notify (p : string) (id : Hash) : txsNotify :=
  mkTxsNotify (Some (mkTx id)) p.

End Mock.

(** * Notions used in the statements *)

Section Notions.

Context {C : Collaborators}.

(** The response [r] answers the request of [height] to peer [p]. *)
Definition matching (p : string) (height : Z) (r : pendingResponse) : Prop :=
  peerID r = p /\ exists b, block r = Some b /\ Height b = height.

Definition matchingb (p : string) (height : Z) (r : pendingResponse) : bool :=
  (strings_Compare (peerID r) p =? 0)
  && match block r with
     | Some b => Height b =? height
     | None => false
     end.

(** The response [r] comes from another peer, or carries a block of another
    height. *)
Definition mismatching (p : string) (height : Z) (r : pendingResponse) : Prop :=
  peerID r <> p \/ exists b, block r = Some b /\ Height b <> height.

(** [Waits p height evs bk bk']: the wait loop of [BlockRequest p height],
    started in [bk], takes the events [evs] and is then back at its [select]
    in [bk'].  The events it survives are responses that do not answer the
    request, retry ticks whose request is dispatched, and quit signals for
    other peers. *)
Inductive Waits (p : string) (height : Z)
  : list Event -> blockKeeper -> blockKeeper -> Prop :=
| waits_done bk :
    Waits p height [] bk bk
| waits_pending r evs bk bk' :
    mismatching p height r ->
    Waits p height evs bk bk' ->
    Waits p height (EvPending r :: evs) bk bk'
| waits_retry evs bk bk1 bk' :
    blockRequest p height bk = Done None bk1 ->
    Waits p height evs bk1 bk' ->
    Waits p height (EvRetryTick :: evs) bk bk'
| waits_quit q evs bk bk' :
    q <> p ->
    Waits p height evs bk bk' ->
    Waits p height (EvQuit (Some q) :: evs) bk bk'.

(** [Reaches p maxPeerHeight bk0 num bk]: the call
    [BlockRequestWorker p maxPeerHeight] made in [bk0] arrives at the
    condition of its loop with cursor [num], the block keeper being [bk]. *)
Inductive Reaches (p : string) (maxPeerHeight : Z) (bk0 : blockKeeper)
  : Z -> blockKeeper -> Prop :=
| reaches_first :
    Reaches p maxPeerHeight bk0
      (wrap64 (chain_Height (chain bk0) + 1)) (record CHeight bk0)
| reaches_next num bk num' bk' :
    Reaches p maxPeerHeight bk0 num bk ->
    num <= maxPeerHeight ->
    worker_body p num bk = Done (Continue num') bk' ->
    Reaches p maxPeerHeight bk0 num' bk'.

(** The same, when every [BlockRequest] so far returned a block and every
    [ProcessBlock] accepted it without calling it an orphan. *)
Inductive ReachesSmoothly (p : string) (maxPeerHeight : Z) (bk0 : blockKeeper)
  : Z -> blockKeeper -> Prop :=
| smoothly_first :
    ReachesSmoothly p maxPeerHeight bk0
      (wrap64 (chain_Height (chain bk0) + 1)) (record CHeight bk0)
| smoothly_next num bk blk bk1 bk2 num' bk' :
    ReachesSmoothly p maxPeerHeight bk0 num bk ->
    num <= maxPeerHeight ->
    BlockRequest p num bk = Done (Some blk, None) bk1 ->
    call_ProcessBlock (Some blk) bk1 = Done (false, None) bk2 ->
    worker_body p num bk = Done (Continue num') bk' ->
    ReachesSmoothly p maxPeerHeight bk0 num' bk'.

(** The state after the peer has been dropped. *)
Definition dropped (p : string) (bk : blockKeeper) : blockKeeper :=
  record (CDropPeer p) (set_peers (peers_DropPeer (peers bk) p) bk).

(** The state after the peer has been reported to the switch. *)
Definition reported (p : string) (bk : blockKeeper) : blockKeeper :=
  record (CAddScamPeer (getPeer (peers_Peer (peers bk) p)))
    (set_sw (sw_AddScamPeer (sw bk) (getPeer (peers_Peer (peers bk) p)))
       (record (CPeer p) bk)).

(** The calls made between [bk] and [bk']. *)
Definition calls_since (bk bk' : blockKeeper) (l : list Call) : Prop :=
  calls bk' = calls bk ++ l.

Definition is_request (c : Call) : Prop :=
  exists p h, c = CRequestBlockByHeight p h.

(** Calls that evict or penalize a peer. *)
Definition is_penalty (c : Call) : bool :=
  match c with
  | CDropPeer _ | CAddScamPeer _ => true
  | _ => false
  end.

(** The verdict of [ValidateTx] for which the peer is reported: an error,
    and not an orphan. *)
Definition hard_failure (r : bool * option error) : bool :=
  match r with
  | (false, Some _) => true
  | _ => false
  end.

(** The state after [MarkTransaction] and [ValidateTx] for the transaction
    [t] received from [p]. *)
Definition marked (p : string) (t : Tx) (bk : blockKeeper) : blockKeeper :=
  record (CMarkTransaction p (ID t))
    (set_peers (peers_MarkTransaction (peers bk) p (ID t)) bk).

Definition validated (t : Tx) (bk : blockKeeper) : blockKeeper :=
  record (CValidateTx t)
    (set_chain (fst (chain_ValidateTx (chain bk) t)) bk).

(** The [MarkTransaction] call that a notification asks for. *)
Definition mark_of (n : txsNotify) : list Call :=
  match tx n with
  | Some t => [CMarkTransaction (tx_peerID n) (ID t)]
  | None => []
  end.

Definition is_MarkTransaction (c : Call) : bool :=
  match c with
  | CMarkTransaction _ _ => true
  | _ => false
  end.

End Notions.

(** * The ingress of the block keeper *)

(** [pendingProcessCh] and [txsProcessCh] are buffered channels.  Between
    two receives a buffered channel is a queue with a capacity: a send is
    appended to the queue, and blocks when the queue is full. *)

Definition maxBlocksPending : Z := 1024.
Definition maxtxsPending : Z := 32768.

Record chan (A : Type) : Type := mkChan {
  buf : list A;
  cap : Z
}.

Arguments mkChan {A} buf cap.
Arguments buf {A} c.
Arguments cap {A} c.

(** [make(chan A, n)]. *)
Definition make_chan {A : Type} (n : Z) : chan A := mkChan [] n.

(** [ch <- x]; [None] when the send blocks. *)
Definition chan_send {A : Type} (x : A) (ch : chan A) : option (chan A) :=
  if Z.of_nat (List.length (buf ch)) <? cap ch
  then Some (mkChan (buf ch ++ [x]) (cap ch))
  else None.

(** The two channels that [newBlockKeeper] makes. *)
Record ingress : Type := mkIngress {
  pendingProcessCh : chan pendingResponse;
  txsProcessCh : chan txsNotify
}.

Section Ingress.

Context {C : Collaborators}.

(** [newBlockKeeper]: the block keeper on the given collaborators, with
    nothing delivered and no call made yet, and its two empty channels.
    The worker it starts with [go bk.txsProcessWorker()] is
    [txsProcessWorker] on what is sent on [txsProcessCh]. *)
Definition newBlockKeeper (c : Chain) (s : Switch) (ps : PeerSet)
  : blockKeeper * ingress :=
  (mkBlockKeeper c s ps [] [],
   mkIngress (make_chan maxBlocksPending) (make_chan maxtxsPending)).

End Ingress.

Definition AddBlock (b : option Block) (p : string) (q : ingress)
  : option ingress :=
  match chan_send (mkPendingResponse b p) (pendingProcessCh q) with
  | Some ch => Some (mkIngress ch (txsProcessCh q))
  | None => None
  end.

Definition AddTx (t : option Tx) (p : string) (q : ingress) : option ingress :=
  match chan_send (mkTxsNotify t p) (txsProcessCh q) with
  | Some ch => Some (mkIngress (pendingProcessCh q) ch)
  | None => None
  end.

(** The calls [AddBlock(b1, p1); ...; AddBlock(bn, pn)] in a row, none of
    which may block. *)
Fixpoint AddBlock_all (items : list (option Block * string)) (q : ingress)
  : option ingress :=
  match items with
  | [] => Some q
  | (b, p) :: items' =>
      match AddBlock b p q with
      | Some q' => AddBlock_all items' q'
      | None => None
      end
  end.

Fixpoint AddTx_all (items : list (option Tx * string)) (q : ingress)
  : option ingress :=
  match items with
  | [] => Some q
  | (t, p) :: items' =>
      match AddTx t p q with
      | Some q' => AddTx_all items' q'
      | None => None
      end
  end.

(** * Further notions *)

Definition is_retry (ev : Event) : bool :=
  match ev with
  | EvRetryTick => true
  | _ => false
  end.

Definition is_pending (ev : Event) : bool :=
  match ev with
  | EvPending _ => true
  | _ => false
  end.

Definition count_retry (evs : list Event) : nat :=
  List.length (filter is_retry evs).

Definition count_pending (evs : list Event) : nat :=
  List.length (filter is_pending evs).

(** An event at which [BlockRequest p] dereferences no nil pointer: a
    response from [p] carries a block, a quit signal carries a peer. *)
Definition sound_event (p : string) (ev : Event) : bool :=
  match ev with
  | EvPending r =>
      negb (strings_Compare (peerID r) p =? 0)
      || match block r with Some _ => true | None => false end
  | EvQuit None => false
  | _ => true
  end.

Definition sound_schedule (p : string) (evs : list Event) : bool :=
  forallb (sound_event p) evs.

Section MoreNotions.

Context {C : Collaborators}.

Definition is_ProcessBlock (c : Call) : bool :=
  match c with
  | CProcessBlock _ => true
  | _ => false
  end.

(** A call by which [BlockRequestWorker p maxPeerHeight] fetches and
    applies blocks: a read of the chain height, a request to [p] of a
    height between 0 and [maxPeerHeight], or [ProcessBlock] of a block whose
    height is between 0 and [maxPeerHeight].  Calls that concern a peer
    otherwise ([DropPeer], [Peer], [AddScamPeer]) and the calls of the other
    methods are not among them. *)
Definition fetch_call (p : string) (maxPeerHeight : Z) (c : Call) : Prop :=
  match c with
  | CHeight => True
  | CRequestBlockByHeight q h => q = p /\ 0 <= h <= maxPeerHeight
  | CProcessBlock ob =>
      exists b, ob = Some b /\ 0 <= Height b <= maxPeerHeight
  | _ => False
  end.

(** How a call of [BlockRequestWorker p maxPeerHeight] that started in [bk]
    may end.  Up to its ending it makes fetch calls only, and leaves the
    switch alone.  It then returns nil, panics or is still waiting, with
    nothing more done; or it returns [errCommAbnorm] in the state that
    dropping [p] gives; or it returns [errScamPeer] in the state that
    reporting [p] to the switch gives. *)
Definition worker_ending (p : string) (maxPeerHeight : Z) (bk : blockKeeper)
  (o : Outcome (option error)) : Prop :=
  exists l,
    Forall (fetch_call p maxPeerHeight) l
    /\ match o with
       | Done None bk' => calls bk' = calls bk ++ l /\ sw bk' = sw bk
       | Done (Some e) bk' =>
           exists bk1,
             calls bk1 = calls bk ++ l
             /\ sw bk1 = sw bk
             /\ ((e = errCommAbnorm /\ bk' = dropped p bk1)
                 \/ (e = errScamPeer /\ bk' = reported p bk1))
       | Panicked bk' => calls bk' = calls bk ++ l /\ sw bk' = sw bk
       | Blocked bk' => calls bk' = calls bk ++ l /\ sw bk' = sw bk
       end.

(** The chain, the peer set and the switch of a block keeper. *)
Definition collaborators_of (bk : blockKeeper) : Chain * PeerSet * Switch :=
  (chain bk, peers bk, sw bk).

(** What the ingestion worker is to do with the transaction [t] received
    from [p], on the chain [c], the peer set [ps] and the switch [s]: mark
    [t] as known for [p], validate it, and report [p] to the switch when
    validation fails and [t] is no orphan. *)
Definition ingest (t : Tx) (p : string) (st : Chain * PeerSet * Switch)
  : Chain * PeerSet * Switch :=
  let '(c, ps, s) := st in
  let ps' := peers_MarkTransaction ps p (ID t) in
  (fst (chain_ValidateTx c t),
   ps',
   if hard_failure (snd (chain_ValidateTx c t))
   then sw_AddScamPeer s (getPeer (peers_Peer ps' p))
   else s).

(** The calls that go with it. *)
Definition ingest_calls (t : Tx) (p : string) (st : Chain * PeerSet * Switch)
  : list Call :=
  let '(c, ps, _) := st in
  [CMarkTransaction p (ID t); CValidateTx t]
  ++ if hard_failure (snd (chain_ValidateTx c t))
     then [CPeer p;
           CAddScamPeer (getPeer (peers_Peer (peers_MarkTransaction ps p (ID t)) p))]
     else [].

Fixpoint ingest_all (q : list (Tx * string)) (st : Chain * PeerSet * Switch)
  : Chain * PeerSet * Switch :=
  match q with
  | [] => st
  | (t, p) :: q' => ingest_all q' (ingest t p st)
  end.

Fixpoint ingest_all_calls (q : list (Tx * string))
  (st : Chain * PeerSet * Switch) : list Call :=
  match q with
  | [] => []
  | (t, p) :: q' => ingest_calls t p st ++ ingest_all_calls q' (ingest t p st)
  end.

(** The transactions of a queue, with their peers, up to the first
    notification that carries none. *)
Fixpoint carried (queue : list txsNotify) : list (Tx * string) :=
  match queue with
  | [] => []
  | n :: queue' =>
      match tx n with
      | Some t => (t, tx_peerID n) :: carried queue'
      | None => []
      end
  end.

(** The peer set after [MarkTransaction] for each transaction in turn. *)
Definition mark_all (q : list (Tx * string)) (ps : PeerSet) : PeerSet :=
  fold_left (fun ps i => peers_MarkTransaction ps (snd i) (ID (fst i))) q ps.

End MoreNotions.

(** ** Further concrete runs *)

Module Runs.

(** A response from another peer, a retry and a quit signal for another
    peer: nothing that ends the wait for block 11 of peer a. *)
Definition idle_events : list Event :=
  [Mock.from_peer "b" (Mock.good_block 11); EvRetryTick;
   EvQuit (Some "b"%string)].

Definition idle : @blockKeeper Mock.collaborators :=
  Mock.keeper 10 Mock.two_peers idle_events.

(** The same events, then the answer, then the deadline. *)
Definition late_answer : @blockKeeper Mock.collaborators :=
  Mock.keeper 10 Mock.two_peers
    (idle_events ++ [Mock.from_peer "a" (Mock.good_block 11); EvSyncTimeout]).

(** A response of peer a without a block, behind one of peer b. *)
Definition nil_response : @blockKeeper Mock.collaborators :=
  Mock.keeper 10 Mock.two_peers
    [Mock.from_peer "b" (Mock.good_block 11);
     EvPending (mkPendingResponse None "a"); EvSyncTimeout].

(** The channels of a new block keeper, after [AddBlock] of a block 12 and
    of a block 11 for peer a. *)
Definition fresh : ingress :=
  snd (@newBlockKeeper Mock.collaborators (Mock.mkChain 10 10 [] [] [])
         [] Mock.two_peers).

Definition one_added : ingress :=
  mkIngress
    (mkChan [mkPendingResponse (Some (Mock.good_block 12)) "a"] 1024)
    (make_chan 32768).

Definition two_added : ingress :=
  mkIngress
    (mkChan [mkPendingResponse (Some (Mock.good_block 12)) "a";
             mkPendingResponse (Some (Mock.good_block 11)) "a"] 1024)
    (make_chan 32768).

Definition from_channel : @blockKeeper Mock.collaborators :=
  Mock.keeper 10 Mock.two_peers
    (map EvPending (buf (pendingProcessCh two_added)) ++ [EvSyncTimeout]).

End Runs.

(** * Properties *)

(** ** Machine integers and strings *)

Lemma wrap64_range (z : Z) : 0 <= wrap64 z <= uint64_max.
Proof.
  unfold wrap64, uint64_max, uint64_modulus.
  pose proof (Z.mod_pos_bound z (2 ^ 64) ltac:(lia)). lia.
Qed.

Lemma wrap64_id (z : Z) : 0 <= z <= uint64_max -> wrap64 z = z.
Proof.
  unfold wrap64, uint64_max, uint64_modulus. intros H.
  apply Z.mod_small. lia.
Qed.

Lemma wrap64_dec_zero : wrap64 (0 - 1) = uint64_max.
Proof. reflexivity. Qed.

Lemma wrap64_inc_max : wrap64 (uint64_max + 1) = 0.
Proof. reflexivity. Qed.

Lemma string_compare_refl (s : string) : String.compare s s = Eq.
Proof.
  pose proof (String.compare_antisym s s) as H.
  destruct (String.compare s s); simpl in H; congruence.
Qed.

Lemma strings_Compare_zero (a b : string) :
  (strings_Compare a b =? 0) = true <-> a = b.
Proof.
  unfold strings_Compare. split.
  - destruct (String.compare a b) eqn:E; simpl; try discriminate.
    intros _. now apply String.compare_eq_iff.
  - intros ->. now rewrite string_compare_refl.
Qed.

Lemma strings_Compare_same (a : string) : (strings_Compare a a =? 0) = true.
Proof. now apply strings_Compare_zero. Qed.

Lemma strings_Compare_other (a b : string) :
  a <> b -> (strings_Compare a b =? 0) = false.
Proof.
  intros H. destruct (strings_Compare a b =? 0) eqn:E; [|reflexivity].
  apply strings_Compare_zero in E. contradiction.
Qed.

Lemma err_is_true (a : option error) (b : error) :
  err_is a b = true <-> a = Some b.
Proof.
  unfold err_is. destruct a as [e|]; [|split; discriminate].
  destruct (error_eq_dec e b); split; congruence.
Qed.

Section Properties.

Context {C : Collaborators}.

(** ** The dispatch of a request *)

Lemma blockRequest_eq (p : string) (height : Z) (bk : blockKeeper) :
  blockRequest p height bk =
  Done (snd (peers_requestBlockByHeight (peers bk) p height))
       (record (CRequestBlockByHeight p height)
          (set_peers (fst (peers_requestBlockByHeight (peers bk) p height)) bk)).
Proof.
  unfold blockRequest, call_requestBlockByHeight.
  destruct (peers_requestBlockByHeight (peers bk) p height); reflexivity.
Qed.

Lemma blockRequest_frame (p : string) (height : Z) (bk bk' : blockKeeper) r :
  blockRequest p height bk = Done r bk' ->
  chain bk' = chain bk /\ sw bk' = sw bk /\ sched bk' = sched bk
  /\ calls bk' = calls bk ++ [CRequestBlockByHeight p height].
Proof.
  rewrite blockRequest_eq. intros H. inversion H; subst. simpl. auto.
Qed.

(** ** The wait loop of BlockRequest *)

(** What the wait loop leaves alone, whatever its outcome: the chain and
    the switch; it only adds requests to the calls, and only takes events
    from the front of the schedule. *)
Lemma BlockRequest_wait_frame (p : string) (height : Z) (evs : list Event) :
  forall bk,
    let o := BlockRequest_wait p height evs bk in
    chain (final o) = chain bk
    /\ sw (final o) = sw bk
    /\ (exists l, calls_since bk (final o) l /\ Forall is_request l)
    /\ (List.length (sched (final o)) <= List.length evs)%nat.
Proof.
  induction evs as [|ev evs IH]; intros bk; simpl.
  - repeat split; auto. exists []. split; [|constructor].
    unfold calls_since. simpl. now rewrite app_nil_r.
  - assert (Hnone : forall bk0 : blockKeeper,
               chain (set_sched evs bk0) = chain bk0
               /\ sw (set_sched evs bk0) = sw bk0
               /\ (exists l, calls_since bk0 (set_sched evs bk0) l
                             /\ Forall is_request l)
               /\ (List.length (sched (set_sched evs bk0))
                   <= S (List.length evs))%nat).
    { intros bk0. repeat split; simpl; auto. exists []. split; [|constructor].
      unfold calls_since. simpl. now rewrite app_nil_r. }
    assert (Hrec : forall bk0 : blockKeeper,
               let o := BlockRequest_wait p height evs bk0 in
               chain (final o) = chain bk0
               /\ sw (final o) = sw bk0
               /\ (exists l, calls_since bk0 (final o) l /\ Forall is_request l)
               /\ (List.length (sched (final o)) <= S (List.length evs))%nat).
    { intros bk0. destruct (IH bk0) as (H1 & H2 & H3 & H4).
      repeat split; auto. }
    destruct ev as [r| | |[q|]].
    + destruct (negb (strings_Compare (peerID r) p =? 0)); [apply Hrec|].
      destruct (block r) as [b|]; [|apply Hnone].
      destruct (negb (Height b =? height)); [apply Hrec|apply Hnone].
    + rewrite blockRequest_eq.
      set (bk1 := record _ _).
      assert (Hbk1 : chain bk1 = chain bk /\ sw bk1 = sw bk
                     /\ calls bk1 = calls bk ++ [CRequestBlockByHeight p height])
        by (subst bk1; simpl; auto).
      destruct Hbk1 as (Hc & Hs & Hl).
      assert (Hreq : is_request (CRequestBlockByHeight p height))
        by (now exists p, height).
      destruct (snd (peers_requestBlockByHeight (peers bk) p height)).
      * simpl. repeat split; auto.
        exists [CRequestBlockByHeight p height]. split; [exact Hl|].
        now constructor.
      * destruct (Hrec bk1) as (H1 & H2 & (l & H3 & H3') & H4).
        repeat split; try congruence; auto.
        exists (CRequestBlockByHeight p height :: l). split.
        -- unfold calls_since in *. rewrite H3, Hl, <- app_assoc. reflexivity.
        -- now constructor.
    + apply Hnone.
    + destruct (strings_Compare q p =? 0); [apply Hnone|apply Hrec].
    + apply Hnone.
Qed.

(** When the wait loop returns, it has taken at least one event. *)
Lemma BlockRequest_wait_consumes (p : string) (height : Z) (evs : list Event) :
  forall bk r bk',
    BlockRequest_wait p height evs bk = Done r bk' ->
    (List.length (sched bk') < List.length evs)%nat.
Proof.
  induction evs as [|ev evs IH]; intros bk r bk' H; simpl in H.
  - discriminate.
  - assert (Hnow : forall (bk0 : blockKeeper) x,
               Done x (set_sched evs bk0) = Done r bk' ->
               (List.length (sched bk') < List.length (ev :: evs))%nat).
    { intros bk0 x E. inversion E; subst. simpl. lia. }
    assert (Hrec : forall bk0,
               BlockRequest_wait p height evs bk0 = Done r bk' ->
               (List.length (sched bk') < List.length (ev :: evs))%nat).
    { intros bk0 E. apply IH in E. simpl. lia. }
    destruct ev as [pr| | |[q|]].
    + destruct (negb (strings_Compare (peerID pr) p =? 0)); [eauto|].
      destruct (block pr) as [b|]; [|discriminate].
      destruct (negb (Height b =? height)); eauto.
    + rewrite blockRequest_eq in H.
      destruct (snd (peers_requestBlockByHeight (peers bk) p height)); eauto.
    + eauto.
    + destruct (strings_Compare q p =? 0); eauto.
    + discriminate.
Qed.

(** The wait loop passes over the events described by [Waits]. *)
Lemma BlockRequest_wait_Waits (p : string) (height : Z) pre bk bk' :
  Waits p height pre bk bk' ->
  forall rest,
    BlockRequest_wait p height (pre ++ rest) bk
    = BlockRequest_wait p height rest bk'.
Proof.
  induction 1 as [bk|r evs bk bk' Hr _ IH|evs bk bk1 bk' Hd _ IH|q evs bk bk' Hq _ IH];
    intros rest; simpl.
  - reflexivity.
  - destruct Hr as [Hp|(b & Hb & Hh)].
    + rewrite (strings_Compare_other _ _ Hp). simpl. apply IH.
    + destruct (negb (strings_Compare (peerID r) p =? 0)); [apply IH|].
      rewrite Hb. apply Z.eqb_neq in Hh. rewrite Hh. simpl. apply IH.
  - rewrite Hd. apply IH.
  - rewrite (strings_Compare_other _ _ Hq). apply IH.
Qed.

Lemma Waits_frame (p : string) (height : Z) pre bk bk' :
  Waits p height pre bk bk' ->
  chain bk' = chain bk /\ sw bk' = sw bk /\ sched bk' = sched bk.
Proof.
  induction 1 as [bk|r evs bk bk' _ _ IH|evs bk bk1 bk' Hd _ IH|q evs bk bk' _ _ IH];
    auto.
  apply blockRequest_frame in Hd. destruct Hd as (H1 & H2 & H3 & _).
  destruct IH as (I1 & I2 & I3). repeat split; congruence.
Qed.

(** What the wait loop can return: a block of the requested height with no
    error, or no block with one of two errors of the file (three with the
    failed dispatch of a retry). *)
Lemma BlockRequest_wait_returns (p : string) (height : Z) (evs : list Event) :
  forall bk ob oe bk',
    BlockRequest_wait p height evs bk = Done (ob, oe) bk' ->
    (oe = None /\ exists b, ob = Some b /\ Height b = height)
    \/ (ob = None
        /\ (oe = Some errReqBlock \/ oe = Some errGetBlockTimeout
            \/ oe = Some errPeerDropped)).
Proof.
  induction evs as [|ev evs IH]; intros bk ob oe bk' H; simpl in H.
  - discriminate.
  - destruct ev as [pr| | |[q|]].
    + destruct (negb (strings_Compare (peerID pr) p =? 0)); [eauto|].
      destruct (block pr) as [b|]; [|discriminate].
      destruct (negb (Height b =? height)) eqn:E; [eauto|].
      inversion H; subst. left. split; [reflexivity|].
      exists b. split; [reflexivity|].
      apply negb_false_iff in E. now apply Z.eqb_eq.
    + rewrite blockRequest_eq in H.
      destruct (snd (peers_requestBlockByHeight (peers bk) p height)); [|eauto].
      inversion H; subst. right. auto.
    + inversion H; subst. right. auto.
    + destruct (strings_Compare q p =? 0); [|eauto].
      inversion H; subst. right. auto.
    + discriminate.
Qed.

(** ** BlockRequest *)

Lemma BlockRequest_eq (p : string) (height : Z) (bk : blockKeeper) :
  BlockRequest p height bk =
  match blockRequest p height bk with
  | Done (Some _) bk1 => Done (None, Some errReqBlock) bk1
  | Done None bk1 => BlockRequest_wait p height (sched bk1) bk1
  | Panicked bk1 => Panicked bk1
  | Blocked bk1 => Blocked bk1
  end.
Proof.
  unfold BlockRequest, bind.
  destruct (blockRequest p height bk) as [[e|] bk1|bk1|bk1]; reflexivity.
Qed.

Lemma BlockRequest_returns (p : string) (height : Z) bk ob oe bk' :
  BlockRequest p height bk = Done (ob, oe) bk' ->
  (oe = None /\ exists b, ob = Some b /\ Height b = height)
  \/ (ob = None
      /\ (oe = Some errReqBlock \/ oe = Some errGetBlockTimeout
          \/ oe = Some errPeerDropped)).
Proof.
  rewrite BlockRequest_eq, blockRequest_eq.
  destruct (snd (peers_requestBlockByHeight (peers bk) p height)).
  - intros H. inversion H; subst. right. auto.
  - apply BlockRequest_wait_returns.
Qed.

Lemma BlockRequest_frame (p : string) (height : Z) (bk : blockKeeper) :
  let o := BlockRequest p height bk in
  chain (final o) = chain bk
  /\ sw (final o) = sw bk
  /\ (exists l, calls_since bk (final o) l /\ Forall is_request l)
  /\ (List.length (sched (final o)) <= List.length (sched bk))%nat.
Proof.
  rewrite BlockRequest_eq, blockRequest_eq.
  set (bk1 := record _ _).
  assert (Hreq : is_request (CRequestBlockByHeight p height))
    by (now exists p, height).
  destruct (snd (peers_requestBlockByHeight (peers bk) p height)).
  - simpl. repeat split; auto. exists [CRequestBlockByHeight p height].
    split; [reflexivity|now constructor].
  - cbv zeta.
    destruct (BlockRequest_wait_frame p height (sched bk1) bk1)
      as (H1 & H2 & (l & H3 & H3') & H4).
    repeat split; auto.
    exists (CRequestBlockByHeight p height :: l). split; [|now constructor].
    unfold calls_since in *. rewrite H3. subst bk1. simpl.
    now rewrite <- app_assoc.
Qed.

(** A call that returns a block has taken at least one event from the
    schedule. *)
Lemma BlockRequest_consumes (p : string) (height : Z) bk ob bk' :
  BlockRequest p height bk = Done (ob, None) bk' ->
  (List.length (sched bk') < List.length (sched bk))%nat.
Proof.
  rewrite BlockRequest_eq, blockRequest_eq.
  destruct (snd (peers_requestBlockByHeight (peers bk) p height)).
  - discriminate.
  - intros H. apply BlockRequest_wait_consumes in H. exact H.
Qed.

(** ** One pass through the loop of BlockRequestWorker *)

Lemma call_ProcessBlock_eq (ob : option Block) (bk : blockKeeper) :
  call_ProcessBlock ob bk =
  Done (snd (chain_ProcessBlock (chain bk) ob))
       (record (CProcessBlock ob)
          (set_chain (fst (chain_ProcessBlock (chain bk) ob)) bk)).
Proof.
  unfold call_ProcessBlock.
  destruct (chain_ProcessBlock (chain bk) ob); reflexivity.
Qed.

Lemma call_ProcessBlock_frame (ob : option Block) (bk bk' : blockKeeper) r :
  call_ProcessBlock ob bk = Done r bk' ->
  sw bk' = sw bk /\ peers bk' = peers bk /\ sched bk' = sched bk
  /\ calls bk' = calls bk ++ [CProcessBlock ob].
Proof.
  rewrite call_ProcessBlock_eq. intros H. inversion H; subst. simpl. auto.
Qed.

Lemma worker_body_failed (p : string) (num : Z) bk ob e bk1 :
  BlockRequest p num bk = Done (ob, Some e) bk1 ->
  e = errReqBlock \/ e = errGetBlockTimeout \/ e = errPeerDropped ->
  worker_body p num bk = Done (Return (Some errCommAbnorm)) (dropped p bk1).
Proof.
  intros H He. unfold worker_body, bind. rewrite H.
  destruct He as [-> | [-> | ->]]; reflexivity.
Qed.

Lemma worker_body_rejected (p : string) (num : Z) bk b bk1 isOrphan e bk2 :
  BlockRequest p num bk = Done (Some b, None) bk1 ->
  call_ProcessBlock (Some b) bk1 = Done (isOrphan, Some e) bk2 ->
  worker_body p num bk = Done (Return (Some errScamPeer)) (reported p bk2).
Proof.
  intros H1 H2. unfold worker_body, bind. rewrite H1. simpl. rewrite H2.
  reflexivity.
Qed.

Lemma worker_body_orphan (p : string) (num : Z) bk ob bk1 bk2 :
  BlockRequest p num bk = Done (ob, None) bk1 ->
  call_ProcessBlock ob bk1 = Done (true, None) bk2 ->
  worker_body p num bk = Done (Continue (wrap64 (num - 1))) bk2.
Proof.
  intros H1 H2. unfold worker_body, bind. rewrite H1. simpl. rewrite H2.
  reflexivity.
Qed.

Lemma worker_body_accepted (p : string) (num : Z) bk ob bk1 bk2 :
  BlockRequest p num bk = Done (ob, None) bk1 ->
  call_ProcessBlock ob bk1 = Done (false, None) bk2 ->
  worker_body p num bk
  = Done (Continue (wrap64 (chain_Height (chain bk2) + 1))) (record CHeight bk2).
Proof.
  intros H1 H2. unfold worker_body, bind. rewrite H1. simpl. rewrite H2.
  reflexivity.
Qed.

(** The ways a pass can end, read off the code. *)
Lemma worker_body_cases (p : string) (num : Z) (bk : blockKeeper) :
  (exists bk1, BlockRequest p num bk = Panicked bk1
               /\ worker_body p num bk = Panicked bk1)
  \/ (exists bk1, BlockRequest p num bk = Blocked bk1
                  /\ worker_body p num bk = Blocked bk1)
  \/ (exists e bk1,
         BlockRequest p num bk = Done (None, Some e) bk1
         /\ (e = errReqBlock \/ e = errGetBlockTimeout \/ e = errPeerDropped)
         /\ worker_body p num bk
            = Done (Return (Some errCommAbnorm)) (dropped p bk1))
  \/ (exists b bk1 r bk2,
         BlockRequest p num bk = Done (Some b, None) bk1
         /\ Height b = num
         /\ call_ProcessBlock (Some b) bk1 = Done r bk2
         /\ worker_body p num bk
            = match r with
              | (_, Some _) => Done (Return (Some errScamPeer)) (reported p bk2)
              | (true, None) => Done (Continue (wrap64 (num - 1))) bk2
              | (false, None) =>
                  Done (Continue (wrap64 (chain_Height (chain bk2) + 1)))
                       (record CHeight bk2)
              end).
Proof.
  destruct (BlockRequest p num bk) as [[ob oe] bk1|bk1|bk1] eqn:E.
  - destruct (BlockRequest_returns _ _ _ _ _ _ E)
      as [(-> & b & -> & Hb)|(-> & He)].
    + right. right. right.
      destruct (snd (chain_ProcessBlock (chain bk1) (Some b)))
        as [isOrphan [e|]] eqn:R.
      * exists b, bk1. eexists. eexists.
        rewrite call_ProcessBlock_eq, R. repeat split; eauto.
        destruct isOrphan; cbv beta iota; eapply worker_body_rejected; eauto;
          rewrite call_ProcessBlock_eq, R; reflexivity.
      * exists b, bk1. eexists. eexists.
        rewrite call_ProcessBlock_eq, R. repeat split; eauto.
        destruct isOrphan; cbv beta iota.
        -- eapply worker_body_orphan; eauto.
           rewrite call_ProcessBlock_eq, R. reflexivity.
        -- eapply worker_body_accepted; eauto.
           rewrite call_ProcessBlock_eq, R. reflexivity.
    + right. right. left.
      assert (exists e, oe = Some e
                        /\ (e = errReqBlock \/ e = errGetBlockTimeout
                            \/ e = errPeerDropped)) as (e & -> & He').
      { destruct He as [-> | [-> | ->]]; eexists; split; eauto. }
      exists e, bk1. repeat split; auto.
      eapply worker_body_failed; eauto.
  - left. exists bk1. split; [reflexivity|].
    unfold worker_body, bind. now rewrite E.
  - right. left. exists bk1. split; [reflexivity|].
    unfold worker_body, bind. now rewrite E.
Qed.

(** A pass that goes back to the loop condition has taken an event. *)
Lemma worker_body_consumes (p : string) (num : Z) bk num' bk' :
  worker_body p num bk = Done (Continue num') bk' ->
  (List.length (sched bk') < List.length (sched bk))%nat.
Proof.
  intros H.
  destruct (worker_body_cases p num bk)
    as [(bk1 & _ & E)|[(bk1 & _ & E)|[(e & bk1 & _ & _ & E)
       |(b & bk1 & [isOrphan oe] & bk2 & E1 & _ & E2 & E)]]];
    rewrite E in H; try discriminate.
  apply BlockRequest_consumes in E1.
  apply call_ProcessBlock_frame in E2. destruct E2 as (_ & _ & Hs & _).
  destruct isOrphan, oe; inversion H; subst; simpl; rewrite Hs; exact E1.
Qed.

(** ** The loop of BlockRequestWorker *)

Lemma worker_loop_exit (fuel : nat) (p : string) (maxPeerHeight num : Z) bk :
  maxPeerHeight < num ->
  worker_loop fuel p maxPeerHeight num bk = Done None bk.
Proof.
  intros H. apply Z.leb_gt in H.
  destruct fuel; simpl; now rewrite H.
Qed.

Lemma worker_loop_step (fuel : nat) (p : string) (maxPeerHeight num : Z) bk :
  num <= maxPeerHeight ->
  worker_loop (S fuel) p maxPeerHeight num bk =
  match worker_body p num bk with
  | Done (Continue num') bk' => worker_loop fuel p maxPeerHeight num' bk'
  | Done (Return e) bk' => Done e bk'
  | Panicked bk' => Panicked bk'
  | Blocked bk' => Blocked bk'
  end.
Proof.
  intros H. apply Z.leb_le in H. simpl. now rewrite H.
Qed.

(** The loop never runs out of [fuel]: any two amounts above the length of
    the schedule give the same outcome. *)
Lemma worker_loop_fuel (p : string) (maxPeerHeight : Z) (f1 : nat) :
  forall f2 num bk,
    (List.length (sched bk) < f1)%nat ->
    (List.length (sched bk) < f2)%nat ->
    worker_loop f1 p maxPeerHeight num bk
    = worker_loop f2 p maxPeerHeight num bk.
Proof.
  induction f1 as [|f1 IH]; intros f2 num bk H1 H2; [lia|].
  destruct f2 as [|f2]; [lia|].
  destruct (Z.leb_spec num maxPeerHeight) as [Hle|Hgt].
  - rewrite !worker_loop_step by assumption.
    destruct (worker_body p num bk) as [[num'|e] bk'|bk'|bk'] eqn:E; auto.
    apply worker_body_consumes in E. apply IH; lia.
  - now rewrite !worker_loop_exit.
Qed.

(** From a point the call reaches, the loop decides the result of the call. *)
Lemma Reaches_result (p : string) (maxPeerHeight : Z) bk0 num bk :
  Reaches p maxPeerHeight bk0 num bk ->
  BlockRequestWorker p maxPeerHeight bk0
  = worker_loop (S (List.length (sched bk))) p maxPeerHeight num bk.
Proof.
  induction 1 as [|num bk num' bk' _ IH Hle Hbody].
  - reflexivity.
  - rewrite IH, worker_loop_step, Hbody by assumption.
    apply worker_body_consumes in Hbody.
    apply worker_loop_fuel; lia.
Qed.

(** The cursor is an [uint64] at every point the call reaches. *)
Lemma Reaches_uint64 (p : string) (maxPeerHeight : Z) bk0 num bk :
  Reaches p maxPeerHeight bk0 num bk -> is_uint64 num.
Proof.
  unfold is_uint64.
  induction 1 as [|num bk num' bk' _ IH Hle Hbody].
  - apply wrap64_range.
  - destruct (worker_body_cases p num bk)
      as [(bk1 & _ & E)|[(bk1 & _ & E)|[(e & bk1 & _ & _ & E)
         |(b & bk1 & [isOrphan oe] & bk2 & _ & _ & _ & E)]]];
      rewrite E in Hbody; try discriminate.
    destruct isOrphan, oe; inversion Hbody; subst; apply wrap64_range.
Qed.

Lemma ReachesSmoothly_Reaches (p : string) (maxPeerHeight : Z) bk0 num bk :
  ReachesSmoothly p maxPeerHeight bk0 num bk ->
  Reaches p maxPeerHeight bk0 num bk.
Proof.
  induction 1; [constructor|econstructor; eauto].
Qed.

(** The result of the call, when the loop ends its pass with [return]. *)
Lemma Reaches_return (p : string) (maxPeerHeight : Z) bk0 num bk e bk' :
  Reaches p maxPeerHeight bk0 num bk ->
  num <= maxPeerHeight ->
  worker_body p num bk = Done (Return e) bk' ->
  BlockRequestWorker p maxPeerHeight bk0 = Done e bk'.
Proof.
  intros HR Hle Hbody.
  now rewrite (Reaches_result _ _ _ _ _ HR), worker_loop_step, Hbody.
Qed.

Lemma Reaches_exit (p : string) (maxPeerHeight : Z) bk0 num bk :
  Reaches p maxPeerHeight bk0 num bk ->
  maxPeerHeight < num ->
  BlockRequestWorker p maxPeerHeight bk0 = Done None bk.
Proof.
  intros HR Hgt.
  now rewrite (Reaches_result _ _ _ _ _ HR), worker_loop_exit.
Qed.

(** ** IsCaughtUp *)

Lemma IsCaughtUp_eq (bk : blockKeeper) :
  IsCaughtUp bk
  = Done (chain_Height (chain bk) <? snd (peers_BestPeer (peers bk)))
         (record CHeight (record CBestPeer bk)).
Proof.
  unfold IsCaughtUp, bind, call_BestPeer, call_Height, ret.
  destruct (peers_BestPeer (peers bk)); reflexivity.
Qed.

(** What the code computes: [IsCaughtUp] answers [true] exactly when the
    local chain is behind the best peer. *)
Lemma IsCaughtUp_true_iff_behind (bk : blockKeeper) :
  returned (IsCaughtUp bk) = Some true
  <-> chain_Height (chain bk) < snd (peers_BestPeer (peers bk)).
Proof.
  rewrite IsCaughtUp_eq. simpl. rewrite <- Z.ltb_lt.
  split; [now inversion 1|now intros ->].
Qed.

(** ** Responses that answer the request *)

Lemma matchingb_true (p : string) (height : Z) (r : pendingResponse) :
  matchingb p height r = true <-> matching p height r.
Proof.
  unfold matchingb, matching. rewrite andb_true_iff, strings_Compare_zero.
  split.
  - intros [Hp Hb]. split; [exact Hp|].
    destruct (block r) as [b|]; [|discriminate].
    exists b. split; [reflexivity|now apply Z.eqb_eq].
  - intros [Hp (b & Hb & Hh)]. split; [exact Hp|].
    rewrite Hb. now apply Z.eqb_eq.
Qed.

Lemma mismatching_matchingb (p : string) (height : Z) (r : pendingResponse) :
  mismatching p height r -> matchingb p height r = false.
Proof.
  intros H. destruct (matchingb p height r) eqn:E; [|reflexivity].
  apply matchingb_true in E. destruct E as [Hp (b & Hb & Hh)].
  destruct H as [H|(b' & Hb' & Hh')]; [contradiction|].
  congruence.
Qed.

Lemma Waits_mismatching (p : string) (height : Z) (pre : list pendingResponse) bk :
  Forall (mismatching p height) pre ->
  Waits p height (map EvPending pre) bk bk.
Proof.
  induction 1; simpl; constructor; auto.
Qed.

(** The wait loop at a response that answers the request. *)
Lemma BlockRequest_wait_match (p : string) (height : Z) m b rest bk :
  peerID m = p -> block m = Some b -> Height b = height ->
  BlockRequest_wait p height (EvPending m :: rest) bk
  = Done (Some b, None) (set_sched rest bk).
Proof.
  intros Hp Hb Hh. simpl.
  rewrite Hp, strings_Compare_same, Hb. simpl.
  apply Z.eqb_eq in Hh. now rewrite Hh.
Qed.

(** X16: once the first request is dispatched, the first response of peer
    [p] with a block of the requested height is returned with a nil error,
    whatever responses that do not answer the request, dispatched retries
    and quit signals for other peers come before it; the events behind it
    stay in the schedule. *)
Lemma BlockRequest_match_after_waiting
  (p : string) (height : Z) bk bk1 pre m b rest bk2 :
  blockRequest p height bk = Done None bk1 ->
  sched bk = pre ++ EvPending m :: rest ->
  Waits p height pre bk1 bk2 ->
  peerID m = p -> block m = Some b -> Height b = height ->
  BlockRequest p height bk = Done (Some b, None) (set_sched rest bk2).
Proof.
  intros Hd Hs Hw Hp Hb Hh.
  rewrite BlockRequest_eq, Hd.
  destruct (blockRequest_frame _ _ _ _ _ Hd) as (_ & _ & Hs1 & _).
  rewrite Hs1, Hs, (BlockRequest_wait_Waits _ _ _ _ _ Hw).
  now apply BlockRequest_wait_match.
Qed.

(** A sequence with exactly one answer splits around it. *)
Lemma single_match_split (p : string) (height : Z) (items : list pendingResponse) :
  List.length (filter (matchingb p height) items) = 1%nat ->
  exists pre m post,
    items = pre ++ m :: post
    /\ matchingb p height m = true
    /\ Forall (fun r => matchingb p height r = false) pre
    /\ Forall (fun r => matchingb p height r = false) post.
Proof.
  induction items as [|r items IH]; simpl; [discriminate|].
  destruct (matchingb p height r) eqn:E; simpl; intros H.
  - exists [], r, items. repeat split; auto.
    injection H as H. apply length_zero_iff_nil in H.
    apply Forall_forall. intros x Hx.
    destruct (matchingb p height x) eqn:Ex; [|reflexivity].
    assert (In x (filter (matchingb p height) items))
      by (apply filter_In; auto).
    rewrite H in *. contradiction.
  - destruct (IH H) as (pre & m & post & -> & Hm & Hpre & Hpost).
    exists (r :: pre), m, post. repeat split; auto.
Qed.

(** C3: when exactly one of the responses delivered to [BlockRequest p
    height] comes from [p] with a block of [height], and every other one
    has the wrong peer or a block of the wrong height, the call passes over
    the others, in whatever order they arrive, and returns the block of
    that one response with a nil error. *)
Theorem BlockRequest_single_match
  (p : string) (height : Z) (bk bk1 : blockKeeper)
  (items : list pendingResponse) (rest : list Event) :
  blockRequest p height bk = Done None bk1 ->
  sched bk = map EvPending items ++ rest ->
  List.length (filter (matchingb p height) items) = 1%nat ->
  Forall (fun r => matchingb p height r = false -> mismatching p height r)
         items ->
  exists pre m b post,
    items = pre ++ m :: post
    /\ matching p height m
    /\ block m = Some b
    /\ Forall (mismatching p height) pre
    /\ Forall (mismatching p height) post
    /\ BlockRequest p height bk
       = Done (Some b, None) (set_sched (map EvPending post ++ rest) bk1).
Proof.
  intros Hd Hs H1 Hothers.
  destruct (single_match_split _ _ _ H1) as (pre & m & post & -> & Hm & Hpre & Hpost).
  apply matchingb_true in Hm. destruct Hm as [Hp (b & Hb & Hh)].
  apply Forall_app in Hothers. destruct Hothers as [Ho1 Ho2].
  apply Forall_cons_iff in Ho2. destruct Ho2 as [_ Ho2].
  assert (Hpre' : Forall (mismatching p height) pre).
  { rewrite Forall_forall in *. intros x Hx. auto. }
  assert (Hpost' : Forall (mismatching p height) post).
  { rewrite Forall_forall in *. intros x Hx. auto. }
  exists pre, m, b, post. repeat split; auto.
  - exists b. auto.
  - rewrite BlockRequest_eq, Hd.
    destruct (blockRequest_frame _ _ _ _ _ Hd) as (_ & _ & Hs1 & _).
    rewrite Hs1, Hs, map_app, <- app_assoc. simpl.
    rewrite (BlockRequest_wait_Waits p height _ bk1 bk1
               (Waits_mismatching p height pre bk1 Hpre')).
    now apply BlockRequest_wait_match.
Qed.

(** C4: how [BlockRequest p height] fails.  (1) When the first dispatch
    fails, the error is [errReqBlock].  While the loop waits (responses that
    do not answer the request, dispatched retries, quit signals for other
    peers): (2) a retry whose dispatch fails gives [errReqBlock], (3) the
    deadline gives [errGetBlockTimeout], (4) a quit signal carrying [p]
    gives [errPeerDropped], each with a nil block.  (5) A quit signal
    carrying another peer does not end the call: the loop goes on with the
    next event, in the same state. *)
Theorem BlockRequest_failures (p : string) (height : Z) (bk : blockKeeper) :
  (forall e bk1,
      blockRequest p height bk = Done (Some e) bk1 ->
      BlockRequest p height bk = Done (None, Some errReqBlock) bk1)
  /\ (forall bk1 pre rest bk2 e bk3,
         blockRequest p height bk = Done None bk1 ->
         sched bk = pre ++ EvRetryTick :: rest ->
         Waits p height pre bk1 bk2 ->
         blockRequest p height bk2 = Done (Some e) bk3 ->
         BlockRequest p height bk
         = Done (None, Some errReqBlock) (set_sched rest bk3))
  /\ (forall bk1 pre rest bk2,
         blockRequest p height bk = Done None bk1 ->
         sched bk = pre ++ EvSyncTimeout :: rest ->
         Waits p height pre bk1 bk2 ->
         BlockRequest p height bk
         = Done (None, Some errGetBlockTimeout) (set_sched rest bk2))
  /\ (forall bk1 pre rest bk2,
         blockRequest p height bk = Done None bk1 ->
         sched bk = pre ++ EvQuit (Some p) :: rest ->
         Waits p height pre bk1 bk2 ->
         BlockRequest p height bk
         = Done (None, Some errPeerDropped) (set_sched rest bk2))
  /\ (forall q rest bk',
         q <> p ->
         BlockRequest_wait p height (EvQuit (Some q) :: rest) bk'
         = BlockRequest_wait p height rest bk').
Proof.
  assert (Hgo : forall bk1 pre ev rest bk2,
             blockRequest p height bk = Done None bk1 ->
             sched bk = pre ++ ev :: rest ->
             Waits p height pre bk1 bk2 ->
             BlockRequest p height bk
             = BlockRequest_wait p height (ev :: rest) bk2).
  { intros bk1 pre ev rest bk2 Hd Hs Hw.
    rewrite BlockRequest_eq, Hd.
    destruct (blockRequest_frame _ _ _ _ _ Hd) as (_ & _ & Hs1 & _).
    rewrite Hs1, Hs. now apply BlockRequest_wait_Waits. }
  repeat split.
  - intros e bk1 Hd. now rewrite BlockRequest_eq, Hd.
  - intros bk1 pre rest bk2 e bk3 Hd Hs Hw Hd2.
    rewrite (Hgo _ _ _ _ _ Hd Hs Hw). simpl. now rewrite Hd2.
  - intros bk1 pre rest bk2 Hd Hs Hw.
    now rewrite (Hgo _ _ _ _ _ Hd Hs Hw).
  - intros bk1 pre rest bk2 Hd Hs Hw.
    rewrite (Hgo _ _ _ _ _ Hd Hs Hw). simpl.
    now rewrite strings_Compare_same.
  - intros q rest bk' Hq. simpl.
    now rewrite (strings_Compare_other _ _ Hq).
Qed.

(** ** Calls made by a pass and by the loop *)

Lemma BlockRequest_done_frame (p : string) (height : Z) bk r bk1 :
  BlockRequest p height bk = Done r bk1 ->
  chain bk1 = chain bk /\ sw bk1 = sw bk
  /\ exists l, calls_since bk bk1 l /\ Forall is_request l.
Proof.
  intros H. pose proof (BlockRequest_frame p height bk) as F.
  rewrite H in F. simpl in F. tauto.
Qed.

Lemma is_request_not_penalty (l : list Call) :
  Forall is_request l -> Forall (fun c => is_penalty c = false) l.
Proof.
  apply Forall_impl. intros c (q & h & ->). reflexivity.
Qed.

(** A pass that goes back to the loop condition leaves the switch alone and
    neither drops nor reports a peer. *)
Lemma worker_body_continue_quiet (p : string) (num : Z) bk num' bk' :
  worker_body p num bk = Done (Continue num') bk' ->
  sw bk' = sw bk
  /\ exists l, calls_since bk bk' l /\ Forall (fun c => is_penalty c = false) l.
Proof.
  intros H.
  destruct (worker_body_cases p num bk)
    as [(bk1 & _ & E)|[(bk1 & _ & E)|[(e & bk1 & _ & _ & E)
       |(b & bk1 & [isOrphan oe] & bk2 & E1 & _ & E2 & E)]]];
    rewrite E in H; try discriminate.
  destruct (BlockRequest_done_frame _ _ _ _ _ E1) as (_ & Hsw & l & Hl & Hreq).
  destruct (call_ProcessBlock_frame _ _ _ _ E2) as (Hsw2 & _ & _ & Hc2).
  apply is_request_not_penalty in Hreq.
  unfold calls_since in *.
  destruct isOrphan, oe; inversion H; subst; clear H; simpl.
  - split; [congruence|].
    exists (l ++ [CProcessBlock (Some b)]).
    rewrite Hc2, Hl, <- app_assoc. split; [reflexivity|].
    apply Forall_app. split; [exact Hreq|]. now repeat constructor.
  - split; [congruence|].
    exists (l ++ [CProcessBlock (Some b); CHeight]).
    rewrite Hc2, Hl, <- !app_assoc. split; [reflexivity|].
    apply Forall_app. split; [exact Hreq|]. now repeat constructor.
Qed.

(** Up to any point the call reaches, it has left the switch alone and has
    neither dropped nor reported a peer. *)
Lemma Reaches_quiet (p : string) (maxPeerHeight : Z) bk0 num bk :
  Reaches p maxPeerHeight bk0 num bk ->
  sw bk = sw bk0
  /\ exists l, calls_since bk0 bk l /\ Forall (fun c => is_penalty c = false) l.
Proof.
  induction 1 as [|num bk num' bk' _ IH Hle Hbody].
  - split; [reflexivity|]. exists [CHeight]. split; [reflexivity|].
    now repeat constructor.
  - destruct IH as (Hsw & l & Hl & Hq).
    destruct (worker_body_continue_quiet _ _ _ _ _ Hbody) as (Hsw' & l' & Hl' & Hq').
    split; [congruence|].
    exists (l ++ l'). unfold calls_since in *.
    rewrite Hl', Hl, <- app_assoc. split; [reflexivity|].
    apply Forall_app. auto.
Qed.

(** ** The cursor *)

(** C2, as amended: at every pass of every call of [BlockRequestWorker],
    after a [ProcessBlock] that succeeds without calling the block an
    orphan, the cursor at the next loop condition is [chain.Height() + 1]
    in [uint64] arithmetic, read from the chain as [ProcessBlock] left it;
    after a [ProcessBlock] that calls the block an orphan, the cursor is
    decremented in [uint64] arithmetic, which is a decrease by exactly one
    whenever the cursor was at least 1. *)
Theorem cursor_after_ProcessBlock
  (p : string) (maxPeerHeight : Z) (bk0 : blockKeeper)
  (num : Z) (bk : blockKeeper) (ob : option Block) (bk1 : blockKeeper)
  (isOrphan : bool) (bk2 : blockKeeper) :
  Reaches p maxPeerHeight bk0 num bk ->
  num <= maxPeerHeight ->
  BlockRequest p num bk = Done (ob, None) bk1 ->
  call_ProcessBlock ob bk1 = Done (isOrphan, None) bk2 ->
  exists num' bk',
    worker_body p num bk = Done (Continue num') bk'
    /\ Reaches p maxPeerHeight bk0 num' bk'
    /\ chain bk' = chain bk2
    /\ if isOrphan
       then num' = wrap64 (num - 1) /\ (1 <= num -> num' = num - 1)
       else num' = wrap64 (chain_Height (chain bk') + 1)
            /\ (0 <= chain_Height (chain bk') < uint64_max ->
                num' = chain_Height (chain bk') + 1).
Proof.
  intros HR Hle HB HP. destruct isOrphan.
  - pose proof (worker_body_orphan _ _ _ _ _ _ HB HP) as E.
    exists (wrap64 (num - 1)), bk2. repeat split; auto.
    + econstructor; eauto.
    + intros H1. apply wrap64_id.
      pose proof (Reaches_uint64 _ _ _ _ _ HR) as Hu. unfold is_uint64 in Hu. lia.
  - pose proof (worker_body_accepted _ _ _ _ _ _ HB HP) as E.
    exists (wrap64 (chain_Height (chain bk2) + 1)), (record CHeight bk2).
    repeat split; auto.
    + econstructor; eauto.
    + simpl. intros H. apply wrap64_id. lia.
Qed.

(** C10, as amended: for a [maxPeerHeight] below the largest [uint64], when
    the cursor is 0 and the block fetched at height 0 is called an orphan,
    the decrement wraps to 18446744073709551615, the loop condition fails,
    and [BlockRequestWorker] returns nil; up to then the call has neither
    dropped nor reported a peer. *)
Theorem orphan_at_zero_ends_call
  (p : string) (maxPeerHeight : Z) (bk0 bk : blockKeeper)
  (ob : option Block) (bk1 bk2 : blockKeeper) :
  0 <= maxPeerHeight < uint64_max ->
  Reaches p maxPeerHeight bk0 0 bk ->
  BlockRequest p 0 bk = Done (ob, None) bk1 ->
  call_ProcessBlock ob bk1 = Done (true, None) bk2 ->
  worker_body p 0 bk = Done (Continue 18446744073709551615) bk2
  /\ (18446744073709551615 <=? maxPeerHeight) = false
  /\ BlockRequestWorker p maxPeerHeight bk0 = Done None bk2
  /\ sw bk2 = sw bk0
  /\ exists l, calls_since bk0 bk2 l /\ Forall (fun c => is_penalty c = false) l.
Proof.
  intros Hmax HR HB HP.
  pose proof (worker_body_orphan _ _ _ _ _ _ HB HP) as E.
  change (wrap64 (0 - 1)) with 18446744073709551615 in E.
  assert (HR' : Reaches p maxPeerHeight bk0 18446744073709551615 bk2)
    by (econstructor; eauto; lia).
  assert (Hgt : maxPeerHeight < 18446744073709551615)
    by (unfold uint64_max in Hmax; lia).
  repeat split; auto.
  - now apply Z.leb_gt.
  - now apply (Reaches_exit _ _ _ _ _ HR').
  - apply (Reaches_quiet _ _ _ _ _ HR').
  - apply (Reaches_quiet _ _ _ _ _ HR').
Qed.

(** ** Failures *)

(** The general part of C5. *)
Lemma failed_fetch_drops_peer
  (p : string) (maxPeerHeight : Z) (bk0 : blockKeeper)
  (num : Z) (bk : blockKeeper) (ob : option Block) (e : error)
  (bk1 : blockKeeper) :
  Reaches p maxPeerHeight bk0 num bk ->
  num <= maxPeerHeight ->
  BlockRequest p num bk = Done (ob, Some e) bk1 ->
  e = errReqBlock \/ e = errGetBlockTimeout \/ e = errPeerDropped ->
  BlockRequestWorker p maxPeerHeight bk0
  = Done (Some errCommAbnorm) (dropped p bk1)
  /\ peers (dropped p bk1) = peers_DropPeer (peers bk1) p
  /\ chain (dropped p bk1) = chain bk
  /\ exists l, calls_since bk (dropped p bk1) (l ++ [CDropPeer p])
               /\ Forall is_request l.
Proof.
  intros HR Hle HB He.
  pose proof (worker_body_failed _ _ _ _ _ _ HB He) as E.
  destruct (BlockRequest_done_frame _ _ _ _ _ HB) as (Hc & _ & l & Hl & Hreq).
  repeat split.
  - eapply Reaches_return; eauto.
  - exact Hc.
  - exists l. split; [|exact Hreq].
    unfold calls_since in *. simpl. now rewrite Hl, app_assoc.
Qed.

(** C6, as amended: when [ProcessBlock] returns an error for the fetched
    block (with or without the orphan flag), [BlockRequestWorker] asks the
    peer set for the peer, reports it to the switch with [AddScamPeer] and
    returns [errScamPeer].  When [ProcessBlock] only calls the block an
    orphan, the pass ends with the cursor decremented and without a return;
    the call has so far neither dropped nor reported a peer; and when the
    cursor was at least 1, the loop condition holds again at the cursor
    less one, so the call goes on to fetch that block. *)
Theorem ProcessBlock_failure_policy
  (p : string) (maxPeerHeight : Z) (bk0 : blockKeeper)
  (num : Z) (bk : blockKeeper) (ob : option Block) (bk1 : blockKeeper)
  (isOrphan : bool) (err : option error) (bk2 : blockKeeper) :
  Reaches p maxPeerHeight bk0 num bk ->
  num <= maxPeerHeight ->
  BlockRequest p num bk = Done (ob, None) bk1 ->
  call_ProcessBlock ob bk1 = Done (isOrphan, err) bk2 ->
  (err <> None ->
     BlockRequestWorker p maxPeerHeight bk0
     = Done (Some errScamPeer) (reported p bk2)
     /\ sw (reported p bk2)
        = sw_AddScamPeer (sw bk0) (getPeer (peers_Peer (peers bk2) p))
     /\ calls_since bk2 (reported p bk2)
          [CPeer p; CAddScamPeer (getPeer (peers_Peer (peers bk2) p))])
  /\ (err = None -> isOrphan = true ->
        worker_body p num bk = Done (Continue (wrap64 (num - 1))) bk2
        /\ sw bk2 = sw bk0
        /\ (exists l, calls_since bk0 bk2 l
                      /\ Forall (fun c => is_penalty c = false) l)
        /\ (1 <= num ->
            Reaches p maxPeerHeight bk0 (num - 1) bk2
            /\ num - 1 <= maxPeerHeight)).
Proof.
  intros HR Hle HB HP. split.
  - intros Herr. destruct err as [e|]; [clear Herr|congruence].
    destruct (BlockRequest_returns _ _ _ _ _ _ HB)
      as [(_ & b & -> & _)|(_ & [H|[H|H]])]; try discriminate.
    pose proof (worker_body_rejected _ _ _ _ _ _ _ _ HB HP) as E.
    destruct (BlockRequest_done_frame _ _ _ _ _ HB) as (_ & Hsw1 & _).
    destruct (call_ProcessBlock_frame _ _ _ _ HP) as (Hsw2 & _).
    destruct (Reaches_quiet _ _ _ _ _ HR) as (Hsw0 & _).
    repeat split.
    + eapply Reaches_return; eauto.
    + simpl. congruence.
    + unfold calls_since. simpl. now rewrite <- app_assoc.
  - intros -> ->.
    pose proof (worker_body_orphan _ _ _ _ _ _ HB HP) as E.
    assert (HR' : Reaches p maxPeerHeight bk0 (wrap64 (num - 1)) bk2)
      by (econstructor; eauto).
    split; [exact E|]. split; [apply (Reaches_quiet _ _ _ _ _ HR')|].
    split; [apply (Reaches_quiet _ _ _ _ _ HR')|].
    intros H1.
    pose proof (Reaches_uint64 _ _ _ _ _ HR) as Hu. unfold is_uint64 in Hu.
    rewrite wrap64_id in HR' by lia. split; [exact HR'|lia].
Qed.

(** The general part of C8. *)
Lemma smooth_run_returns_nil
  (p : string) (maxPeerHeight : Z) (bk0 : blockKeeper)
  (num : Z) (bk : blockKeeper) :
  ReachesSmoothly p maxPeerHeight bk0 num bk ->
  maxPeerHeight < num ->
  BlockRequestWorker p maxPeerHeight bk0 = Done None bk.
Proof.
  intros HR. apply Reaches_exit. now apply ReachesSmoothly_Reaches.
Qed.

(** ** The block handed to ProcessBlock *)

Lemma not_request_ProcessBlock (l : list Call) (x : option Block) :
  Forall is_request l -> ~ In (CProcessBlock x) l.
Proof.
  intros H Hin. rewrite Forall_forall in H.
  destruct (H _ Hin) as (q & h & E). discriminate.
Qed.

(** The calls of one pass: every [ProcessBlock] among them is given the
    block that the [BlockRequest] of the pass returned with a nil error. *)
Lemma worker_body_calls (p : string) (num : Z) (bk : blockKeeper) :
  exists l,
    calls_since bk (final (worker_body p num bk)) l
    /\ forall x, In (CProcessBlock x) l ->
                 exists b bk1,
                   BlockRequest p num bk = Done (Some b, None) bk1
                   /\ x = Some b.
Proof.
  pose proof (BlockRequest_frame p num bk) as F. cbv zeta in F.
  destruct F as (_ & _ & (l & Hl & Hreq) & _).
  unfold calls_since in *.
  destruct (worker_body_cases p num bk)
    as [(bk1 & E1 & E)|[(bk1 & E1 & E)|[(e & bk1 & E1 & _ & E)
       |(b & bk1 & [isOrphan oe] & bk2 & E1 & _ & E2 & E)]]];
    rewrite E; rewrite E1 in Hl; simpl in Hl.
  - exists l. split; [exact Hl|].
    intros x Hx. now destruct (not_request_ProcessBlock l x Hreq).
  - exists l. split; [exact Hl|].
    intros x Hx. now destruct (not_request_ProcessBlock l x Hreq).
  - exists (l ++ [CDropPeer p]). split.
    + simpl. now rewrite Hl, app_assoc.
    + intros x Hx. apply in_app_or in Hx. destruct Hx as [Hx|[Hx|[]]].
      * now destruct (not_request_ProcessBlock l x Hreq).
      * discriminate.
  - destruct (call_ProcessBlock_frame _ _ _ _ E2) as (_ & _ & _ & Hc2).
    assert (Hmine : forall tl x,
               (forall y, ~ In (CProcessBlock y) tl) ->
               In (CProcessBlock x) (l ++ CProcessBlock (Some b) :: tl) ->
               exists b0 bk3,
                 BlockRequest p num bk = Done (Some b0, None) bk3
                 /\ x = Some b0).
    { intros tl x Htl Hx. apply in_app_or in Hx. destruct Hx as [Hx|[Hx|Hx]].
      - now destruct (not_request_ProcessBlock l x Hreq).
      - inversion Hx; subst. eauto.
      - now destruct (Htl x). }
    destruct oe as [e|]; [|destruct isOrphan].
    + exists (l ++ CProcessBlock (Some b)
                :: [CPeer p; CAddScamPeer (getPeer (peers_Peer (peers bk2) p))]).
      split.
      * replace (match isOrphan with true => _ | false => _ end)
          with (@Done C _ (Return (Some errScamPeer)) (reported p bk2))
          by (now destruct isOrphan).
        simpl. rewrite Hc2, Hl, <- !app_assoc. reflexivity.
      * intros x. apply Hmine. intros y [H|[H|[]]]; discriminate.
    + exists (l ++ CProcessBlock (Some b) :: []). split.
      * simpl. rewrite Hc2, Hl, <- !app_assoc. reflexivity.
      * intros x. apply Hmine. intros y [].
    + exists (l ++ CProcessBlock (Some b) :: [CHeight]). split.
      * simpl. rewrite Hc2, Hl, <- !app_assoc. reflexivity.
      * intros x. apply Hmine. intros y [H|[]]; discriminate.
Qed.

(** The calls of the loop: [ProcessBlock] is never given a nil block. *)
Lemma worker_loop_calls (p : string) (maxPeerHeight : Z) (fuel : nat) :
  forall num bk,
  exists l,
    calls_since bk (final (worker_loop fuel p maxPeerHeight num bk)) l
    /\ forall x, In (CProcessBlock x) l -> x <> None.
Proof.
  assert (Hnil : forall bk : blockKeeper,
             exists l, calls_since bk bk l
                       /\ forall x, In (CProcessBlock x) l -> x <> None).
  { intros bk. exists []. split; [|intros x []].
    unfold calls_since. now rewrite app_nil_r. }
  induction fuel as [|fuel IH]; intros num bk;
    destruct (Z.leb_spec num maxPeerHeight) as [Hle|Hgt];
    try (rewrite worker_loop_exit by assumption; apply Hnil).
  - simpl. apply Z.leb_le in Hle. rewrite Hle. apply Hnil.
  - rewrite worker_loop_step by assumption.
    destruct (worker_body_calls p num bk) as (l & Hl & Hpb).
    assert (Hok : forall x, In (CProcessBlock x) l -> x <> None).
    { intros x Hx. destruct (Hpb x Hx) as (b & _ & _ & ->). discriminate. }
    destruct (worker_body p num bk) as [[num'|e] bk'|bk'|bk'];
      simpl in Hl; try (exists l; split; [exact Hl|exact Hok]).
    destruct (IH num' bk') as (l' & Hl' & Hok').
    exists (l ++ l'). unfold calls_since in *. split.
    + now rewrite Hl', Hl, <- app_assoc.
    + intros x Hx. apply in_app_or in Hx. destruct Hx; auto.
Qed.

(** C9: an error returned by [BlockRequest] comes with a nil block and is
    [errReqBlock], [errGetBlockTimeout] or [errPeerDropped]; on each of them
    [BlockRequestWorker] drops the peer and returns before using the block;
    so in a pass of the loop [ProcessBlock] is only ever called with the
    block that the [BlockRequest] of that pass returned with a nil error,
    and in a whole call [ProcessBlock] is never given a nil block. *)
Theorem ProcessBlock_gets_fetched_block :
  (forall p height bk ob e bk1,
      BlockRequest p height bk = Done (ob, Some e) bk1 ->
      ob = None
      /\ (e = errReqBlock \/ e = errGetBlockTimeout \/ e = errPeerDropped)
      /\ worker_body p height bk
         = Done (Return (Some errCommAbnorm)) (dropped p bk1))
  /\ (forall p height bk b bk1,
         BlockRequest p height bk = Done (Some b, None) bk1 ->
         Height b = height)
  /\ (forall p num bk l x,
         calls_since bk (final (worker_body p num bk)) l ->
         In (CProcessBlock x) l ->
         exists b bk1,
           BlockRequest p num bk = Done (Some b, None) bk1 /\ x = Some b)
  /\ (forall p maxPeerHeight bk0 l x,
         calls_since bk0 (final (BlockRequestWorker p maxPeerHeight bk0)) l ->
         In (CProcessBlock x) l ->
         x <> None).
Proof.
  split; [|split; [|split]].
  - intros p height bk ob e bk1 H.
    destruct (BlockRequest_returns _ _ _ _ _ _ H)
      as [(H1 & _)|(-> & H1)]; [discriminate|].
    assert (He : e = errReqBlock \/ e = errGetBlockTimeout
                 \/ e = errPeerDropped)
      by (destruct H1 as [H1|[H1|H1]]; inversion H1; auto).
    repeat split; auto.
    eapply worker_body_failed; eauto.
  - intros p height bk b bk1 H.
    destruct (BlockRequest_returns _ _ _ _ _ _ H)
      as [(_ & b' & Hb & Hh)|(H1 & _)]; [|discriminate].
    now inversion Hb.
  - intros p num bk l x Hl Hx.
    destruct (worker_body_calls p num bk) as (l' & Hl' & Hpb).
    unfold calls_since in *. rewrite Hl in Hl'.
    apply app_inv_head in Hl'. subst l'. auto.
  - intros p maxPeerHeight bk0 l x Hl Hx.
    unfold BlockRequestWorker, bind, call_Height in Hl.
    destruct (worker_loop_calls p maxPeerHeight
                (S (List.length (sched (record CHeight bk0))))
                (wrap64 (chain_Height (chain bk0) + 1)) (record CHeight bk0))
      as (l' & Hl' & Hok).
    unfold calls_since in *. rewrite Hl' in Hl. simpl in Hl.
    rewrite <- app_assoc in Hl. apply app_inv_head in Hl. subst l.
    destruct Hx as [Hx|Hx]; [discriminate|]. now apply (Hok x).
Qed.

(** ** txsProcessWorker *)

Lemma txsProcess_body_eq (n : txsNotify) (t : Tx) (bk : blockKeeper) :
  tx n = Some t ->
  txsProcess_body n bk
  = if hard_failure (snd (chain_ValidateTx (chain bk) t))
    then Done tt (reported (tx_peerID n) (validated t (marked (tx_peerID n) t bk)))
    else Done tt (validated t (marked (tx_peerID n) t bk)).
Proof.
  intros Ht. unfold txsProcess_body, bind, deref. rewrite Ht.
  unfold call_MarkTransaction, call_ValidateTx, validated, marked. simpl.
  destruct (chain_ValidateTx (chain bk) t) as [c [[|] [e|]]]; reflexivity.
Qed.

Lemma filter_marks_app (l1 l2 : list Call) :
  filter is_MarkTransaction (l1 ++ l2)
  = filter is_MarkTransaction l1 ++ filter is_MarkTransaction l2.
Proof. apply filter_app. Qed.

(** The worker takes the notifications one after the other, whatever the
    verdicts, marking one transaction for each, and leaves its loop only at
    the end of a closed queue. *)
Lemma txsProcessWorker_runs (queue : list txsNotify) (closed : bool) :
  Forall (fun n => tx n <> None) queue ->
  forall bk,
  exists bk',
    txsProcessWorker queue closed bk
    = (if closed then Done tt bk' else Blocked bk')
    /\ filter is_MarkTransaction (calls bk')
       = filter is_MarkTransaction (calls bk) ++ flat_map mark_of queue.
Proof.
  induction 1 as [|n queue Hn Hq IH]; intros bk; simpl.
  - exists bk. rewrite app_nil_r. split; [|reflexivity].
    now destruct closed.
  - destruct (tx n) as [t|] eqn:Ht; [clear Hn|congruence].
    unfold bind. rewrite (txsProcess_body_eq n t bk Ht).
    unfold mark_of at 1. rewrite Ht.
    destruct (hard_failure (snd (chain_ValidateTx (chain bk) t)));
      match goal with
      | |- context [txsProcessWorker queue closed ?b] =>
          destruct (IH b) as (bk' & E & Hm)
      end;
      exists bk'; (split; [exact E|]); rewrite Hm; simpl;
      rewrite !filter_marks_app; simpl; rewrite <- !app_assoc; reflexivity.
Qed.

(** One notification, against what the worker is to do with it. *)
Lemma txsProcess_body_effect (n : txsNotify) (t : Tx) (bk : blockKeeper) :
  tx n = Some t ->
  exists bk',
    txsProcess_body n bk = Done tt bk'
    /\ collaborators_of bk' = ingest t (tx_peerID n) (collaborators_of bk)
    /\ sched bk' = sched bk
    /\ calls bk' = calls bk ++ ingest_calls t (tx_peerID n) (collaborators_of bk).
Proof.
  intros Ht. rewrite (txsProcess_body_eq n t bk Ht).
  unfold collaborators_of, ingest, ingest_calls.
  destruct (hard_failure (snd (chain_ValidateTx (chain bk) t)));
    eexists; (split; [reflexivity|]); simpl;
    rewrite <- ?app_assoc; auto.
Qed.

Lemma txsProcess_body_nil_tx (n : txsNotify) (bk : blockKeeper) :
  tx n = None -> txsProcess_body n bk = Panicked bk.
Proof.
  intros H. unfold txsProcess_body, bind, deref. now rewrite H.
Qed.

(** The collaborators when the worker stops, whatever the queue: the
    notifications up to the first one without a transaction have been
    ingested, in their order. *)
Lemma txsProcessWorker_final (queue : list txsNotify) (closed : bool) :
  forall bk,
    collaborators_of (final (txsProcessWorker queue closed bk))
    = ingest_all (carried queue) (collaborators_of bk)
    /\ sched (final (txsProcessWorker queue closed bk)) = sched bk.
Proof.
  induction queue as [|n queue IH]; intros bk; simpl.
  - destruct closed; auto.
  - unfold bind. destruct (tx n) as [t|] eqn:Ht.
    + destruct (txsProcess_body_effect n t bk Ht) as (bk1 & E & H1 & H2 & _).
      rewrite E. destruct (IH bk1) as (I1 & I2).
      rewrite I1, I2, H1, H2. auto.
    + rewrite (txsProcess_body_nil_tx n bk Ht). auto.
Qed.

Lemma ingest_all_peers (q : list (Tx * string)) :
  forall c ps s, snd (fst (ingest_all q (c, ps, s))) = mark_all q ps.
Proof.
  unfold mark_all.
  induction q as [|[t p] q IH]; intros c ps s; simpl; [reflexivity|].
  apply IH.
Qed.

(** C7: for a notification that carries a transaction, the worker calls
    [MarkTransaction] for the origin peer, then [ValidateTx]; it reports the
    origin peer with [AddScamPeer] exactly when [ValidateTx] returns an
    error without the orphan flag, and makes no further call otherwise, in
    particular not for an orphan.  These calls take effect: afterwards the
    peer set is the one [MarkTransaction] gave, the chain the one
    [ValidateTx] gave, and the switch the one [AddScamPeer] gave for the
    handle of the origin peer, or the switch as it was when the peer is not
    reported.  After every verdict the worker goes on with the next
    notification.  When all notifications carry a transaction it ingests
    each of them in turn, and it returns only at the end of a closed queue:
    while the queue is open it waits. *)
Theorem txsProcessWorker_policy :
  (forall n t bk,
      tx n = Some t ->
      let verdict := snd (chain_ValidateTx (chain bk) t) in
      exists bk',
        txsProcess_body n bk = Done tt bk'
        /\ calls_since bk bk'
             ([CMarkTransaction (tx_peerID n) (ID t); CValidateTx t]
              ++ if hard_failure verdict
                 then [CPeer (tx_peerID n);
                       CAddScamPeer
                         (getPeer (peers_Peer (peers bk') (tx_peerID n)))]
                 else [])
        /\ peers bk' = peers_MarkTransaction (peers bk) (tx_peerID n) (ID t)
        /\ chain bk' = fst (chain_ValidateTx (chain bk) t)
        /\ sw bk'
           = (if hard_failure verdict
              then sw_AddScamPeer (sw bk)
                     (getPeer (peers_Peer (peers bk') (tx_peerID n)))
              else sw bk)
        /\ sched bk' = sched bk
        /\ (hard_failure verdict = true
            <-> snd verdict <> None /\ fst verdict = false)
        /\ (fst verdict = true -> sw bk' = sw bk)
        /\ forall queue closed,
             txsProcessWorker (n :: queue) closed bk
             = txsProcessWorker queue closed bk')
  /\ (forall bk, txsProcessWorker [] true bk = Done tt bk)
  /\ (forall bk, txsProcessWorker [] false bk = Blocked bk)
  /\ (forall queue closed bk,
         Forall (fun n => tx n <> None) queue ->
         exists bk',
           txsProcessWorker queue closed bk
           = (if closed then Done tt bk' else Blocked bk')
           /\ collaborators_of bk'
              = ingest_all (carried queue) (collaborators_of bk)
           /\ peers bk' = mark_all (carried queue) (peers bk)
           /\ List.length (carried queue) = List.length queue
           /\ sched bk' = sched bk
           /\ filter is_MarkTransaction (calls bk')
              = filter is_MarkTransaction (calls bk) ++ flat_map mark_of queue).
Proof.
  split; [|split; [|split]].
  - intros n t bk Ht verdict.
    pose proof (txsProcess_body_eq n t bk Ht) as E. fold verdict in E.
    assert (Hiff : hard_failure verdict = true
                   <-> snd verdict <> None /\ fst verdict = false).
    { destruct verdict as [[|] [e|]]; simpl; split; intros H;
        try discriminate; try (destruct H; congruence);
        split; congruence. }
    destruct (hard_failure verdict) eqn:Hv.
    + eexists. split; [exact E|].
      split; [unfold calls_since; simpl; now rewrite <- !app_assoc|].
      repeat (split; [reflexivity|]).
      split; [exact Hiff|]. split.
      * intros Hf. destruct Hiff as [Hiff _]. destruct (Hiff eq_refl). congruence.
      * intros queue closed. simpl. unfold bind. now rewrite E.
    + eexists. split; [exact E|].
      split; [unfold calls_since; simpl; now rewrite <- !app_assoc|].
      repeat (split; [reflexivity|]).
      split; [exact Hiff|]. split.
      * reflexivity.
      * intros queue closed. simpl. unfold bind. now rewrite E.
  - reflexivity.
  - reflexivity.
  - intros queue closed bk H.
    destruct (txsProcessWorker_runs queue closed H bk) as (bk' & E & Hm).
    destruct (txsProcessWorker_final queue closed bk) as (F1 & F2).
    rewrite E in F1, F2.
    assert (Hfin : final (if closed then Done tt bk' else Blocked bk') = bk')
      by (now destruct closed).
    rewrite Hfin in F1, F2.
    exists bk'. split; [exact E|]. split; [exact F1|].
    split; [|split; [|split; [exact F2|exact Hm]]].
    + pose proof (f_equal (fun x => snd (fst x)) F1) as Hp. simpl in Hp.
      rewrite Hp. unfold collaborators_of. apply ingest_all_peers.
    + clear -H. induction H as [|n queue Hn _ IH]; simpl; [reflexivity|].
      destruct (tx n); [simpl; now rewrite IH|congruence].
Qed.

End Properties.

(** * The claims on concrete runs *)

(** C1: [IsCaughtUp] returns [true] exactly when the local chain height is
    less than the height of the best peer, that is, when the node has not
    caught up.  At local height 10 with the best peer at height 10 it
    returns [false]; at local height 10 with the best peer at height 12 it
    returns [true]. *)
Theorem IsCaughtUp_at_equal_heights :
  (forall (C : Collaborators) (bk : blockKeeper),
      returned (IsCaughtUp bk)
      = Some (negb (snd (peers_BestPeer (peers bk))
                    <=? chain_Height (chain bk))))
  /\ returned (IsCaughtUp (Mock.keeper 10 (Mock.mkPeerSet ["a"]%string 10 1 []) []))
     = Some false
  /\ returned (IsCaughtUp (Mock.keeper 10 (Mock.mkPeerSet ["a"]%string 12 1 []) []))
     = Some true.
Proof.
  split; [|split; reflexivity].
  intros C bk. rewrite IsCaughtUp_eq. simpl.
  now rewrite Z.leb_antisym, negb_involutive.
Qed.

(** C2, as stated, fails: local height 0, the peer answers the request of
    block 1 with an orphan, then the request of block 0 with an orphan; the
    cursor goes from 0 to 18446744073709551615, not to one less. *)
Lemma cursor_wraps_at_zero :
  exists bk bk1 bk2,
    Reaches "a" 5 Mock.orphans_to_zero 0 bk
    /\ BlockRequest "a" 0 bk = Done (Some (Mock.stray_block 0), None) bk1
    /\ call_ProcessBlock (Some (Mock.stray_block 0)) bk1 = Done (true, None) bk2
    /\ worker_body "a" 0 bk = Done (Continue 18446744073709551615) bk2
    /\ 18446744073709551615 <> 0 - 1.
Proof.
  do 3 eexists. split; [|split; [|split; [|split]]].
  - eapply reaches_next with (num := 1).
    + exact (reaches_first "a" 5 Mock.orphans_to_zero).
    + lia.
    + reflexivity.
  - reflexivity.
  - reflexivity.
  - reflexivity.
  - lia.
Qed.

(** The cursor is read from the chain: the peer serves a block of height 11
    that the chain already has as its tip, [ProcessBlock] succeeds and the
    height stays 10, so the cursor stays 11 and does not become 12. *)
Example cursor_is_read_from_chain :
  exists bk',
    worker_body "a" 11
      (Mock.keeper 10 Mock.two_peers [Mock.from_peer "a" (mkBlock 11 9 10)])
    = Done (Continue 11) bk'.
Proof. eexists. reflexivity. Qed.

Lemma cursor_after_ProcessBlock_witness :
  (exists num' bk',
      worker_body "a" 11 (record CHeight Mock.three_blocks)
      = Done (Continue num') bk'
      /\ Reaches "a" 13 Mock.three_blocks num' bk'
      /\ Mock.tip_height (chain bk') = 11
      /\ num' = 12)
  /\ (exists num' bk',
         worker_body "a" 11 (record CHeight Mock.one_orphan)
         = Done (Continue num') bk'
         /\ Reaches "a" 13 Mock.one_orphan num' bk'
         /\ num' = 10).
Proof.
  split.
  - destruct (cursor_after_ProcessBlock "a" 13 Mock.three_blocks 11
                (record CHeight Mock.three_blocks)
                (Some (Mock.good_block 11))
                (final (BlockRequest "a" 11 (record CHeight Mock.three_blocks)))
                false
                (final (call_ProcessBlock (Some (Mock.good_block 11))
                          (final (BlockRequest "a" 11
                                    (record CHeight Mock.three_blocks))))))
      as (num' & bk' & Hbody & HR & Hc & Hn & Hn').
    + exact (reaches_first "a" 13 Mock.three_blocks).
    + lia.
    + reflexivity.
    + reflexivity.
    + exists num', bk'. repeat split; auto.
      * rewrite Hc. reflexivity.
      * rewrite Hn, Hc. reflexivity.
  - destruct (cursor_after_ProcessBlock "a" 13 Mock.one_orphan 11
                (record CHeight Mock.one_orphan)
                (Some (Mock.stray_block 11))
                (final (BlockRequest "a" 11 (record CHeight Mock.one_orphan)))
                true
                (final (call_ProcessBlock (Some (Mock.stray_block 11))
                          (final (BlockRequest "a" 11
                                    (record CHeight Mock.one_orphan))))))
      as (num' & bk' & Hbody & HR & Hc & Hn & Hn').
    + exact (reaches_first "a" 13 Mock.one_orphan).
    + lia.
    + reflexivity.
    + reflexivity.
    + exists num', bk'. repeat split; auto.
Defined.

Lemma BlockRequest_single_match_witness :
  exists pre m b post,
    Mock.crossed_responses = pre ++ m :: post
    /\ matching "a" 11 m
    /\ block m = Some b
    /\ Forall (mismatching "a" 11) pre
    /\ Forall (mismatching "a" 11) post
    /\ BlockRequest "a" 11 Mock.crossed
       = Done (Some b, None)
              (set_sched (map EvPending post ++ [EvSyncTimeout])
                 (final (blockRequest "a" 11 Mock.crossed))).
Proof.
  apply (BlockRequest_single_match "a" 11 Mock.crossed
           (final (blockRequest "a" 11 Mock.crossed))
           Mock.crossed_responses [EvSyncTimeout]).
  - reflexivity.
  - reflexivity.
  - reflexivity.
  - apply Forall_cons; [|apply Forall_cons; [|apply Forall_cons;
      [|apply Forall_cons; [|apply Forall_nil]]]].
    + intros _. left. discriminate.
    + intros _. right. exists (Mock.good_block 12). split; [reflexivity|].
      discriminate.
    + discriminate.
    + intros _. right. exists (Mock.good_block 13). split; [reflexivity|].
      discriminate.
Defined.

(** The same run, evaluated: the block of height 11 from peer a is
    returned, and the late response stays in the schedule. *)
Example BlockRequest_crossed_responses :
  exists bk',
    BlockRequest "a" 11 Mock.crossed = Done (Some (Mock.good_block 11), None) bk'
    /\ sched bk'
       = [EvPending (mkPendingResponse (Some (Mock.good_block 13)) "a");
          EvSyncTimeout].
Proof. eexists. split; reflexivity. Qed.

(** A response from the right peer without a block makes the call panic. *)
Example BlockRequest_nil_block :
  exists bk',
    BlockRequest "a" 11
      (Mock.keeper 10 Mock.two_peers [EvPending (mkPendingResponse None "a")])
    = Panicked bk'.
Proof. eexists. reflexivity. Qed.

Lemma BlockRequest_failures_witness :
  returned (BlockRequest "a" 11
              (Mock.keeper 10 (Mock.mkPeerSet ["a"]%string 13 0 []) []))
  = Some (None, Some errReqBlock)
  /\ returned (BlockRequest "a" 11
                 (Mock.keeper 10 (Mock.mkPeerSet ["a"]%string 13 1 [])
                    [Mock.from_peer "b" (Mock.good_block 11); EvRetryTick]))
     = Some (None, Some errReqBlock)
  /\ returned (BlockRequest "a" 11
                 (Mock.keeper 10 Mock.two_peers
                    [Mock.from_peer "a" (Mock.good_block 12); EvRetryTick;
                     EvQuit (Some "b"%string); EvSyncTimeout]))
     = Some (None, Some errGetBlockTimeout)
  /\ returned (BlockRequest "a" 11
                 (Mock.keeper 10 Mock.two_peers
                    [EvQuit (Some "b"%string); EvQuit (Some "a"%string)]))
     = Some (None, Some errPeerDropped)
  /\ BlockRequest_wait "a" 11
       [EvQuit (Some "b"%string); Mock.from_peer "a" (Mock.good_block 11)]
       (Mock.keeper 10 Mock.two_peers [])
     = BlockRequest_wait "a" 11 [Mock.from_peer "a" (Mock.good_block 11)]
         (Mock.keeper 10 Mock.two_peers []).
Proof.
  split; [|split; [|split; [|split]]].
  - destruct (BlockRequest_failures "a" 11
                (Mock.keeper 10 (Mock.mkPeerSet ["a"]%string 13 0 []) []))
      as (H & _).
    erewrite H.
    + reflexivity.
    + reflexivity.
  - destruct (BlockRequest_failures "a" 11
                (Mock.keeper 10 (Mock.mkPeerSet ["a"]%string 13 1 [])
                   [Mock.from_peer "b" (Mock.good_block 11); EvRetryTick]))
      as (_ & H & _).
    erewrite (H _ [Mock.from_peer "b" (Mock.good_block 11)] []).
    + reflexivity.
    + reflexivity.
    + reflexivity.
    + apply waits_pending; [left; discriminate|apply waits_done].
    + reflexivity.
  - destruct (BlockRequest_failures "a" 11
                (Mock.keeper 10 Mock.two_peers
                   [Mock.from_peer "a" (Mock.good_block 12); EvRetryTick;
                    EvQuit (Some "b"%string); EvSyncTimeout]))
      as (_ & _ & H & _).
    erewrite (H _ [Mock.from_peer "a" (Mock.good_block 12); EvRetryTick;
                   EvQuit (Some "b"%string)] []).
    + reflexivity.
    + reflexivity.
    + reflexivity.
    + apply waits_pending.
      { right. exists (Mock.good_block 12). split; [reflexivity|discriminate]. }
      eapply waits_retry; [reflexivity|].
      apply waits_quit; [discriminate|apply waits_done].
  - destruct (BlockRequest_failures "a" 11
                (Mock.keeper 10 Mock.two_peers
                   [EvQuit (Some "b"%string); EvQuit (Some "a"%string)]))
      as (_ & _ & _ & H & _).
    erewrite (H _ [EvQuit (Some "b"%string)] []).
    + reflexivity.
    + reflexivity.
    + reflexivity.
    + apply waits_quit; [discriminate|apply waits_done].
  - apply (BlockRequest_failures "a" 11 (Mock.keeper 10 Mock.two_peers [])).
    discriminate.
Defined.

(** C5: in any pass of [BlockRequestWorker] in which [BlockRequest] fails
    with [errReqBlock], [errGetBlockTimeout] or [errPeerDropped], the call
    drops the peer from the peer set and returns [errCommAbnorm] at once;
    the chain is as it was at the start of the pass, and the only calls of
    the pass are the requests and [DropPeer], so [ProcessBlock] is not
    called.  For instance, at local height 10 with peer height 12, when the
    fetch of block 11 times out after a retry, the call returns
    [errCommAbnorm], the peer is no longer registered and the chain height
    is still 10. *)
Theorem failed_fetch_ends_call :
  (forall (C : Collaborators) (p : string) (maxPeerHeight : Z)
          (bk0 : blockKeeper) (num : Z) (bk : blockKeeper)
          (ob : option Block) (e : error) (bk1 : blockKeeper),
      Reaches p maxPeerHeight bk0 num bk ->
      num <= maxPeerHeight ->
      BlockRequest p num bk = Done (ob, Some e) bk1 ->
      e = errReqBlock \/ e = errGetBlockTimeout \/ e = errPeerDropped ->
      BlockRequestWorker p maxPeerHeight bk0
      = Done (Some errCommAbnorm) (dropped p bk1)
      /\ peers (dropped p bk1) = peers_DropPeer (peers bk1) p
      /\ chain (dropped p bk1) = chain bk
      /\ exists l, calls_since bk (dropped p bk1) (l ++ [CDropPeer p])
                   /\ Forall is_request l)
  /\ (exists bk',
         BlockRequestWorker "a" 12 Mock.silent_peer
         = Done (Some errCommAbnorm) bk'
         /\ chain bk' = chain Mock.silent_peer
         /\ Mock.tip_height (chain bk') = 10
         /\ Mock.registered (peers bk') = ["b"]%string
         /\ calls bk'
            = [CHeight; CRequestBlockByHeight "a"%string 11;
               CRequestBlockByHeight "a"%string 11; CDropPeer "a"%string]).
Proof.
  split.
  - intros C. apply failed_fetch_drops_peer.
  - eexists. repeat split; reflexivity.
Qed.

Lemma failed_fetch_ends_call_witness :
  BlockRequestWorker "a" 12 Mock.silent_peer
  = Done (Some errCommAbnorm)
         (dropped "a" (final (BlockRequest "a" 11 (record CHeight Mock.silent_peer))))
  /\ chain (dropped "a" (final (BlockRequest "a" 11
                                  (record CHeight Mock.silent_peer))))
     = chain Mock.silent_peer.
Proof.
  destruct (proj1 failed_fetch_ends_call Mock.collaborators "a"%string 12
              Mock.silent_peer 11 (record CHeight Mock.silent_peer)
              None errGetBlockTimeout
              (final (BlockRequest "a" 11 (record CHeight Mock.silent_peer))))
    as (H1 & _ & H3 & _).
  - exact (reaches_first "a" 12 Mock.silent_peer).
  - lia.
  - reflexivity.
  - right. left. reflexivity.
  - split; [exact H1|exact H3].
Defined.

(** C6, as stated, fails: local height 0, [maxPeerHeight] 5, the peer
    answers the requests of blocks 1 and 0 with orphans.  [ProcessBlock]
    calls the block of height 0 an orphan, without error, and the call
    returns right there, with events left in the schedule. *)
Lemma orphan_at_zero_terminates :
  exists bk bk1 bk2,
    Reaches "a" 5 Mock.orphans_to_zero 0 bk
    /\ BlockRequest "a" 0 bk = Done (Some (Mock.stray_block 0), None) bk1
    /\ call_ProcessBlock (Some (Mock.stray_block 0)) bk1 = Done (true, None) bk2
    /\ BlockRequestWorker "a" 5 Mock.orphans_to_zero = Done None bk2
    /\ sched bk2 = [EvSyncTimeout].
Proof.
  do 3 eexists. split; [|split; [|split; [|split]]].
  - eapply reaches_next with (num := 1).
    + exact (reaches_first "a" 5 Mock.orphans_to_zero).
    + lia.
    + reflexivity.
  - reflexivity.
  - reflexivity.
  - reflexivity.
  - reflexivity.
Qed.

Lemma ProcessBlock_failure_policy_witness :
  (exists bk2,
      BlockRequestWorker "a" 13 Mock.bad_block
      = Done (Some errScamPeer) (reported "a" bk2)
      /\ sw (reported "a" bk2) = ["a"]%string)
  /\ (exists bk2,
         worker_body "a" 11 (record CHeight Mock.one_orphan)
         = Done (Continue 10) bk2
         /\ sw bk2 = sw Mock.one_orphan
         /\ Reaches "a" 13 Mock.one_orphan 10 bk2).
Proof.
  split.
  - destruct (ProcessBlock_failure_policy "a" 13 Mock.bad_block 11
                (record CHeight Mock.bad_block)
                (Some (Mock.good_block 11))
                (final (BlockRequest "a" 11 (record CHeight Mock.bad_block)))
                false (Some (errForeign "invalid block"))
                (final (call_ProcessBlock (Some (Mock.good_block 11))
                          (final (BlockRequest "a" 11
                                    (record CHeight Mock.bad_block))))))
      as (H & _).
    + exact (reaches_first "a" 13 Mock.bad_block).
    + lia.
    + reflexivity.
    + reflexivity.
    + destruct H as (H1 & H2 & _); [discriminate|].
      eexists. split; [exact H1|]. rewrite H2. reflexivity.
  - destruct (ProcessBlock_failure_policy "a" 13 Mock.one_orphan 11
                (record CHeight Mock.one_orphan)
                (Some (Mock.stray_block 11))
                (final (BlockRequest "a" 11 (record CHeight Mock.one_orphan)))
                true None
                (final (call_ProcessBlock (Some (Mock.stray_block 11))
                          (final (BlockRequest "a" 11
                                    (record CHeight Mock.one_orphan))))))
      as (_ & H).
    + exact (reaches_first "a" 13 Mock.one_orphan).
    + lia.
    + reflexivity.
    + reflexivity.
    + destruct (H eq_refl eq_refl) as (H1 & H2 & _ & H4).
      destruct H4 as (H4 & _); [lia|].
      eexists. split; [exact H1|]. split; [exact H2|exact H4].
Defined.

(** C8: when every [BlockRequest] returned a block and every [ProcessBlock]
    accepted it without calling it an orphan, [BlockRequestWorker] returns
    nil at the first loop condition at which the cursor exceeds
    [maxPeerHeight], without a further call.  For instance, at local height
    10 with [maxPeerHeight] 13, the peer serving the blocks 11, 12 and 13 in
    order, the call returns nil and the chain height is 13. *)
Theorem smooth_run_ends_at_peer_height :
  (forall (C : Collaborators) (p : string) (maxPeerHeight : Z)
          (bk0 : blockKeeper) (num : Z) (bk : blockKeeper),
      ReachesSmoothly p maxPeerHeight bk0 num bk ->
      maxPeerHeight < num ->
      BlockRequestWorker p maxPeerHeight bk0 = Done None bk)
  /\ (exists bk',
         ReachesSmoothly "a" 13 Mock.three_blocks 14 bk'
         /\ BlockRequestWorker "a" 13 Mock.three_blocks = Done None bk'
         /\ Mock.tip_height (chain bk') = 13
         /\ sched bk' = []).
Proof.
  split.
  - intros C. apply smooth_run_returns_nil.
  - eexists. split; [|repeat split; reflexivity].
    eapply smoothly_next with (num := 13);
      [eapply smoothly_next with (num := 12);
       [eapply smoothly_next with (num := 11);
        [exact (smoothly_first "a" 13 Mock.three_blocks)| | | |]| | | |]| | | |];
      try reflexivity; lia.
Qed.

Lemma smooth_run_ends_at_peer_height_witness :
  BlockRequestWorker "a" 11 Mock.three_blocks
  = Done None (final (worker_body "a" 11 (record CHeight Mock.three_blocks))).
Proof.
  apply (proj1 smooth_run_ends_at_peer_height Mock.collaborators "a"%string 11
           Mock.three_blocks 12).
  - eapply smoothly_next with (num := 11).
    + exact (smoothly_first "a" 11 Mock.three_blocks).
    + lia.
    + reflexivity.
    + reflexivity.
    + reflexivity.
  - lia.
Defined.

Lemma txsProcessWorker_policy_witness :
  (exists bk',
      txsProcess_body (Mock.notify "a" 3)
        (Mock.keeper_on Mock.tx_chain Mock.two_peers [])
      = Done tt bk'
      /\ calls bk'
         = [CMarkTransaction "a"%string 3; CValidateTx (mkTx 3);
            CPeer "a"%string; @CAddScamPeer Mock.collaborators "a"%string]
      /\ Mock.marked (peers bk') = [("a"%string, 3)]
      /\ sw bk' = ["a"%string])
  /\ (exists bk',
         txsProcess_body (Mock.notify "a" 4)
           (Mock.keeper_on Mock.tx_chain Mock.two_peers [])
         = Done tt bk'
         /\ calls bk' = [CMarkTransaction "a"%string 4; CValidateTx (mkTx 4)]
         /\ Mock.marked (peers bk') = [("a"%string, 4)]
         /\ sw bk' = [])
  /\ (exists bk',
         txsProcessWorker
           [Mock.notify "a" 1; Mock.notify "b" 2; Mock.notify "a" 3;
            Mock.notify "b" 5]
           true (Mock.keeper_on Mock.tx_chain Mock.two_peers [])
         = Done tt bk'
         /\ Mock.marked (peers bk')
            = [("a"%string, 1); ("b"%string, 2); ("a"%string, 3);
               ("b"%string, 5)]
         /\ sw bk' = ["a"%string]
         /\ filter is_MarkTransaction (calls bk')
            = [CMarkTransaction "a"%string 1; CMarkTransaction "b"%string 2;
               CMarkTransaction "a"%string 3; CMarkTransaction "b"%string 5]).
Proof.
  destruct (@txsProcessWorker_policy Mock.collaborators) as (H1 & _ & _ & H4).
  split; [|split].
  - destruct (H1 (Mock.notify "a" 3) (mkTx 3)
                (Mock.keeper_on Mock.tx_chain Mock.two_peers []) eq_refl)
      as (bk' & E & Hc & Hp & _ & Hs & _).
    exists bk'. split; [exact E|]. split; [rewrite Hc; reflexivity|].
    split; [rewrite Hp; reflexivity|rewrite Hs; reflexivity].
  - destruct (H1 (Mock.notify "a" 4) (mkTx 4)
                (Mock.keeper_on Mock.tx_chain Mock.two_peers []) eq_refl)
      as (bk' & E & Hc & Hp & _ & Hs & _).
    exists bk'. split; [exact E|]. split; [rewrite Hc; reflexivity|].
    split; [rewrite Hp; reflexivity|rewrite Hs; reflexivity].
  - destruct (H4 [Mock.notify "a" 1; Mock.notify "b" 2; Mock.notify "a" 3;
                  Mock.notify "b" 5]
                true (Mock.keeper_on Mock.tx_chain Mock.two_peers []))
      as (bk' & E & Hst & Hp & _ & _ & Hm).
    + repeat constructor; discriminate.
    + exists bk'. split; [exact E|]. split; [rewrite Hp; reflexivity|].
      split; [|rewrite Hm; reflexivity].
      change (sw bk') with (snd (collaborators_of bk')).
      rewrite Hst. reflexivity.
Defined.

Lemma ProcessBlock_gets_fetched_block_witness :
  (exists b bk1,
      BlockRequest "a" 11 (record CHeight Mock.bad_block)
      = Done (Some b, None) bk1
      /\ Some (Mock.good_block 11) = Some b)
  /\ worker_body "a" 11 (record CHeight Mock.silent_peer)
     = Done (Return (Some errCommAbnorm))
            (dropped "a" (final (BlockRequest "a" 11
                                   (record CHeight Mock.silent_peer)))).
Proof.
  destruct (@ProcessBlock_gets_fetched_block Mock.collaborators)
    as (H1 & _ & H3 & _).
  split.
  - apply (H3 "a"%string 11 (record CHeight Mock.bad_block)
             [CRequestBlockByHeight "a"%string 11;
              CProcessBlock (Some (Mock.good_block 11));
              CPeer "a"%string; @CAddScamPeer Mock.collaborators "a"%string]).
    + reflexivity.
    + right. left. reflexivity.
  - apply (H1 "a"%string 11 (record CHeight Mock.silent_peer) None
             errGetBlockTimeout).
    reflexivity.
Defined.

(** C10, as stated, fails: with [maxPeerHeight] 18446744073709551615, after
    the orphan at height 0 the cursor is 18446744073709551615, the loop
    condition holds, the call requests that block, and when the peer stays
    silent it drops the peer and returns [errCommAbnorm], not nil. *)
Lemma wrapped_cursor_goes_on :
  exists bk bk',
    Reaches "a" 18446744073709551615 Mock.orphans_to_zero 0 bk
    /\ worker_body "a" 0 bk = Done (Continue 18446744073709551615) bk'
    /\ (18446744073709551615 <=? 18446744073709551615) = true
    /\ returned (BlockRequestWorker "a" 18446744073709551615
                   Mock.orphans_to_zero)
       = Some (Some errCommAbnorm)
    /\ In (CDropPeer "a"%string)
          (calls (final (BlockRequestWorker "a" 18446744073709551615
                           Mock.orphans_to_zero))).
Proof.
  do 2 eexists. split; [|split; [|split; [|split]]].
  - eapply reaches_next with (num := 1).
    + exact (reaches_first "a" 18446744073709551615 Mock.orphans_to_zero).
    + lia.
    + reflexivity.
  - reflexivity.
  - reflexivity.
  - vm_compute. reflexivity.
  - vm_compute. tauto.
Qed.

Lemma orphan_at_zero_ends_call_witness :
  exists bk2,
    BlockRequestWorker "a" 5 Mock.orphans_to_zero = Done None bk2
    /\ sw bk2 = sw Mock.orphans_to_zero
    /\ sched bk2 = [EvSyncTimeout].
Proof.
  destruct (orphan_at_zero_ends_call "a" 5 Mock.orphans_to_zero
              (final (worker_body "a" 1 (record CHeight Mock.orphans_to_zero)))
              (Some (Mock.stray_block 0))
              (final (BlockRequest "a" 0
                        (final (worker_body "a" 1
                                  (record CHeight Mock.orphans_to_zero)))))
              (final (call_ProcessBlock (Some (Mock.stray_block 0))
                        (final (BlockRequest "a" 0
                                  (final (worker_body "a" 1
                                            (record CHeight
                                               Mock.orphans_to_zero))))))))
    as (_ & _ & H3 & H4 & _).
  - unfold uint64_max. lia.
  - eapply reaches_next with (num := 1).
    + exact (reaches_first "a" 5 Mock.orphans_to_zero).
    + lia.
    + reflexivity.
  - reflexivity.
  - reflexivity.
  - eexists. split; [exact H3|]. split; [exact H4|reflexivity].
Defined.

(** * Further properties of the code *)

Section MoreProperties.

Context {C : Collaborators}.

(** ** What BlockRequest does to the block keeper *)

Lemma BlockRequest_wait_trace (p : string) (height : Z) (evs : list Event) :
  forall bk,
    let o := BlockRequest_wait p height evs bk in
    exists used,
      evs = used ++ sched (final o)
      /\ calls (final o)
         = calls bk ++ repeat (CRequestBlockByHeight p height) (count_retry used)
      /\ chain (final o) = chain bk
      /\ sw (final o) = sw bk.
Proof.
  induction evs as [|ev evs IH]; intros bk; simpl.
  - exists []. simpl. now rewrite app_nil_r.
  - assert (Hnow : forall bk0 : blockKeeper,
               is_retry ev = false ->
               exists used,
                 ev :: evs = used ++ sched (set_sched evs bk0)
                 /\ calls (set_sched evs bk0)
                    = calls bk0
                      ++ repeat (CRequestBlockByHeight p height) (count_retry used)
                 /\ chain (set_sched evs bk0) = chain bk0
                 /\ sw (set_sched evs bk0) = sw bk0).
    { intros bk0 Hev. exists [ev]. unfold count_retry. simpl. rewrite Hev.
      simpl. now rewrite app_nil_r. }
    assert (Hrec : forall bk0 : blockKeeper,
               is_retry ev = false ->
               let o := BlockRequest_wait p height evs bk0 in
               exists used,
                 ev :: evs = used ++ sched (final o)
                 /\ calls (final o)
                    = calls bk0
                      ++ repeat (CRequestBlockByHeight p height) (count_retry used)
                 /\ chain (final o) = chain bk0
                 /\ sw (final o) = sw bk0).
    { intros bk0 Hev. destruct (IH bk0) as (used & H1 & H2 & H3 & H4).
      exists (ev :: used). unfold count_retry in *. simpl. rewrite Hev.
      repeat split; auto. now rewrite <- H1. }
    destruct ev as [r| | |[q|]]; try (apply Hnow; reflexivity).
    + destruct (negb (strings_Compare (peerID r) p =? 0));
        [apply Hrec; reflexivity|].
      destruct (block r) as [b|]; [|apply Hnow; reflexivity].
      destruct (negb (Height b =? height));
        [apply Hrec; reflexivity|apply Hnow; reflexivity].
    + rewrite blockRequest_eq. set (bk1 := record _ _).
      destruct (snd (peers_requestBlockByHeight (peers bk) p height)).
      * exists [EvRetryTick]. simpl. repeat split; auto.
      * destruct (IH bk1) as (used & H1 & H2 & H3 & H4).
        exists (EvRetryTick :: used). unfold count_retry in *. simpl.
        repeat split; auto.
        -- now rewrite <- H1.
        -- rewrite H2. subst bk1. simpl. now rewrite <- app_assoc.
    + destruct (strings_Compare q p =? 0);
        [apply Hnow; reflexivity|apply Hrec; reflexivity].
Qed.

Lemma BlockRequest_takes_prefix (p : string) (height : Z) (bk : blockKeeper) :
  exists used n,
    sched bk = used ++ sched (final (BlockRequest p height bk))
    /\ calls (final (BlockRequest p height bk))
       = calls bk ++ repeat (CRequestBlockByHeight p height) n.
Proof.
  rewrite BlockRequest_eq, blockRequest_eq. set (bk1 := record _ _).
  destruct (snd (peers_requestBlockByHeight (peers bk) p height)).
  - now exists [], 1%nat.
  - destruct (BlockRequest_wait_trace p height (sched bk1) bk1)
      as (used & H1 & H2 & _).
    exists used, (S (count_retry used)). split; [exact H1|].
    rewrite H2. subst bk1. simpl. now rewrite <- app_assoc.
Qed.

(** X1: whatever its outcome, [BlockRequest p height] leaves the chain and
    the switch alone, takes its events from the front of the schedule
    without reordering what it leaves, and its only calls are requests of
    [height] to [p]: the first one, and one for each retry tick it took. *)
Theorem BlockRequest_only_requests (p : string) (height : Z) (bk : blockKeeper) :
  let o := BlockRequest p height bk in
  exists used,
    sched bk = used ++ sched (final o)
    /\ calls (final o)
       = calls bk
         ++ repeat (CRequestBlockByHeight p height) (S (count_retry used))
    /\ chain (final o) = chain bk
    /\ sw (final o) = sw bk.
Proof.
  rewrite BlockRequest_eq, blockRequest_eq. set (bk1 := record _ _).
  destruct (snd (peers_requestBlockByHeight (peers bk) p height)).
  - exists []. simpl. repeat split; auto.
  - cbv zeta.
    destruct (BlockRequest_wait_trace p height (sched bk1) bk1)
      as (used & H1 & H2 & H3 & H4).
    exists used. repeat split; auto.
    rewrite H2. subst bk1. simpl. now rewrite <- app_assoc.
Qed.

(** ** Where the returned block comes from *)

Lemma BlockRequest_wait_source (p : string) (height : Z) (evs : list Event) :
  forall bk b oe bk',
    BlockRequest_wait p height evs bk = Done (Some b, oe) bk' ->
    exists pre r,
      evs = pre ++ EvPending r :: sched bk'
      /\ peerID r = p /\ block r = Some b /\ Height b = height /\ oe = None.
Proof.
  induction evs as [|ev evs IH]; intros bk b oe bk' H; simpl in H.
  - discriminate.
  - assert (Hrec : forall bk0,
               BlockRequest_wait p height evs bk0 = Done (Some b, oe) bk' ->
               exists pre r,
                 ev :: evs = pre ++ EvPending r :: sched bk'
                 /\ peerID r = p /\ block r = Some b /\ Height b = height
                 /\ oe = None).
    { intros bk0 E. destruct (IH _ _ _ _ E) as (pre & r & H1 & H2).
      exists (ev :: pre), r. split; [simpl; now rewrite <- H1|exact H2]. }
    destruct ev as [r| | |[q|]].
    + destruct (negb (strings_Compare (peerID r) p =? 0)) eqn:Ep; [eauto|].
      destruct (block r) as [b0|] eqn:Eb; [|discriminate].
      destruct (negb (Height b0 =? height)) eqn:Eh; [eauto|].
      inversion H; subst. exists [], r. simpl.
      apply negb_false_iff in Ep, Eh. apply strings_Compare_zero in Ep.
      apply Z.eqb_eq in Eh. auto.
    + rewrite blockRequest_eq in H.
      destruct (snd (peers_requestBlockByHeight (peers bk) p height));
        [discriminate|eauto].
    + discriminate.
    + destruct (strings_Compare q p =? 0); [discriminate|eauto].
    + discriminate.
Qed.

(** X2: a block returned by [BlockRequest p height] was delivered in a
    response of peer [p], has the requested height and comes with a nil
    error; that response is the last event the call took. *)
Theorem BlockRequest_block_source
  (p : string) (height : Z) (bk : blockKeeper) (b : Block)
  (oe : option error) (bk' : blockKeeper) :
  BlockRequest p height bk = Done (Some b, oe) bk' ->
  exists pre r,
    sched bk = pre ++ EvPending r :: sched bk'
    /\ peerID r = p /\ block r = Some b /\ Height b = height /\ oe = None.
Proof.
  rewrite BlockRequest_eq, blockRequest_eq.
  destruct (snd (peers_requestBlockByHeight (peers bk) p height)).
  - discriminate.
  - intros H. apply BlockRequest_wait_source in H. exact H.
Qed.

(** X3: as long as only responses that do not answer the request,
    dispatched retries and quit signals for other peers arrive, the call
    does not return: when the schedule holds nothing else, it is still
    waiting at the end. *)
Theorem BlockRequest_keeps_waiting
  (p : string) (height : Z) (bk bk1 bk2 : blockKeeper) :
  blockRequest p height bk = Done None bk1 ->
  Waits p height (sched bk) bk1 bk2 ->
  BlockRequest p height bk = Blocked (set_sched [] bk2).
Proof.
  intros Hd Hw. rewrite BlockRequest_eq, Hd.
  destruct (blockRequest_frame _ _ _ _ _ Hd) as (_ & _ & Hs & _).
  rewrite Hs, <- (app_nil_r (sched bk)).
  now rewrite (BlockRequest_wait_Waits _ _ _ _ _ Hw).
Qed.

(** X4: a nil pointer in the schedule.  After any events the wait loop
    passes over, a response without a block panics when it comes from the
    requested peer and is passed over when it comes from another one (the
    peer is compared before the block is read); a quit signal that carries
    no peer panics. *)
Theorem BlockRequest_nil_pointers
  (p : string) (height : Z) (bk bk1 bk2 : blockKeeper)
  (pre rest : list Event) :
  blockRequest p height bk = Done None bk1 ->
  Waits p height pre bk1 bk2 ->
  (forall q,
      sched bk = pre ++ EvPending (mkPendingResponse None q) :: rest ->
      (q = p -> BlockRequest p height bk = Panicked (set_sched rest bk2))
      /\ (q <> p ->
          BlockRequest p height bk = BlockRequest_wait p height rest bk2))
  /\ (sched bk = pre ++ EvQuit None :: rest ->
      BlockRequest p height bk = Panicked (set_sched rest bk2)).
Proof.
  intros Hd Hw.
  assert (Hgo : forall ev,
             sched bk = pre ++ ev :: rest ->
             BlockRequest p height bk
             = BlockRequest_wait p height (ev :: rest) bk2).
  { intros ev Hs. rewrite BlockRequest_eq, Hd.
    destruct (blockRequest_frame _ _ _ _ _ Hd) as (_ & _ & Hs1 & _).
    rewrite Hs1, Hs. now apply BlockRequest_wait_Waits. }
  split.
  - intros q Hs. rewrite (Hgo _ Hs). simpl. split.
    + intros ->. now rewrite strings_Compare_same.
    + intros Hq. now rewrite (strings_Compare_other _ _ Hq).
  - intros Hs. now rewrite (Hgo _ Hs).
Qed.

(** ** Schedules without nil pointers *)

Lemma BlockRequest_wait_sound (p : string) (height : Z) (evs : list Event) :
  sound_schedule p evs = true ->
  forall bk bk', BlockRequest_wait p height evs bk <> Panicked bk'.
Proof.
  unfold sound_schedule.
  induction evs as [|ev evs IH]; intros Hs bk bk'; simpl in *.
  - discriminate.
  - apply andb_true_iff in Hs. destruct Hs as [Hev Hs].
    destruct ev as [r| | |[q|]]; simpl in Hev.
    + destruct (negb (strings_Compare (peerID r) p =? 0)); [now apply IH|].
      destruct (block r) as [b|]; [|discriminate].
      destruct (negb (Height b =? height)); [now apply IH|discriminate].
    + rewrite blockRequest_eq.
      destruct (snd (peers_requestBlockByHeight (peers bk) p height));
        [discriminate|now apply IH].
    + discriminate.
    + destruct (strings_Compare q p =? 0); [discriminate|now apply IH].
    + discriminate.
Qed.

Lemma sound_schedule_suffix (p : string) (used rest : list Event) :
  sound_schedule p (used ++ rest) = true -> sound_schedule p rest = true.
Proof.
  unfold sound_schedule. rewrite forallb_app, andb_true_iff. tauto.
Qed.

Lemma BlockRequest_sound (p : string) (height : Z) (bk : blockKeeper) :
  sound_schedule p (sched bk) = true ->
  (forall bk', BlockRequest p height bk <> Panicked bk')
  /\ sound_schedule p (sched (final (BlockRequest p height bk))) = true.
Proof.
  intros Hs. split.
  - intros bk'. rewrite BlockRequest_eq, blockRequest_eq.
    destruct (snd (peers_requestBlockByHeight (peers bk) p height));
      [discriminate|].
    now apply BlockRequest_wait_sound.
  - destruct (BlockRequest_takes_prefix p height bk) as (used & n & H1 & _).
    rewrite H1 in Hs. now apply sound_schedule_suffix in Hs.
Qed.

(** ** One pass of BlockRequestWorker, in full *)

Lemma count_pending_app (l1 l2 : list Event) :
  count_pending (l1 ++ l2) = (count_pending l1 + count_pending l2)%nat.
Proof. unfold count_pending. now rewrite filter_app, length_app. Qed.

Lemma BlockRequest_takes_response (p : string) (height : Z) bk b oe bk' :
  BlockRequest p height bk = Done (Some b, oe) bk' ->
  (count_pending (sched bk') < count_pending (sched bk))%nat.
Proof.
  rewrite BlockRequest_eq, blockRequest_eq.
  destruct (snd (peers_requestBlockByHeight (peers bk) p height));
    [discriminate|].
  intros H. apply BlockRequest_wait_source in H.
  destruct H as (pre & r & H & _). simpl in H. rewrite H.
  rewrite count_pending_app.
  change (count_pending (EvPending r :: sched bk'))
    with (S (count_pending (sched bk'))).
  lia.
Qed.

Lemma no_penalty_requests (c : Call) (n : nat) :
  is_penalty c = false ->
  Forall (fun c => is_penalty c = false) (repeat c n).
Proof.
  intros H. apply Forall_forall. intros x Hx.
  apply repeat_spec in Hx. now subst.
Qed.

(** What a pass takes from the schedule, what it calls and how it ends. *)
Lemma worker_body_anatomy (p : string) (num : Z) (bk : blockKeeper) :
  exists used n,
    sched bk = used ++ sched (final (worker_body p num bk))
    /\ match worker_body p num bk with
       | Panicked bk' | Blocked bk' =>
           calls bk' = calls bk ++ repeat (CRequestBlockByHeight p num) n
           /\ sw bk' = sw bk
       | Done (Return e) bk' =>
           (e = Some errCommAbnorm
            /\ calls bk'
               = calls bk ++ repeat (CRequestBlockByHeight p num) n
                 ++ [CDropPeer p]
            /\ sw bk' = sw bk)
           \/ (e = Some errScamPeer
               /\ exists b,
                   Height b = num
                   /\ (count_pending (sched bk') < count_pending (sched bk))%nat
                   /\ calls bk'
                      = calls bk ++ repeat (CRequestBlockByHeight p num) n
                        ++ [CProcessBlock (Some b); CPeer p;
                            CAddScamPeer (getPeer (peers_Peer (peers bk') p))]
                   /\ sw bk'
                      = sw_AddScamPeer (sw bk)
                          (getPeer (peers_Peer (peers bk') p)))
       | Done (Continue num') bk' =>
           exists b tl,
             Height b = num
             /\ (count_pending (sched bk') < count_pending (sched bk))%nat
             /\ calls bk'
                = calls bk ++ repeat (CRequestBlockByHeight p num) n
                  ++ CProcessBlock (Some b) :: tl
             /\ (tl = [] \/ tl = [CHeight])
             /\ sw bk' = sw bk
             /\ 0 <= num' <= uint64_max
       end.
Proof.
  destruct (BlockRequest_takes_prefix p num bk) as (used & n & Hu & Hc).
  pose proof (BlockRequest_frame p num bk) as F. cbv zeta in F.
  destruct F as (_ & Hsw & _).
  exists used, n.
  destruct (worker_body_cases p num bk)
    as [(bk1 & E1 & E)|[(bk1 & E1 & E)|[(e & bk1 & E1 & _ & E)
       |(b & bk1 & [isOrphan oe] & bk2 & E1 & Hb & E2 & E)]]];
    rewrite E; rewrite E1 in Hu, Hc, Hsw; simpl in Hu, Hc, Hsw.
  - simpl. auto.
  - simpl. auto.
  - simpl. split; [exact Hu|]. left. repeat split; auto.
    now rewrite Hc, <- app_assoc.
  - pose proof (BlockRequest_takes_response _ _ _ _ _ _ E1) as Hcnt.
    destruct (call_ProcessBlock_frame _ _ _ _ E2) as (Hsw2 & Hp2 & Hs2 & Hc2).
    destruct oe as [e|]; [|destruct isOrphan].
    + replace (match isOrphan with true => _ | false => _ end)
        with (@Done C _ (Return (Some errScamPeer)) (reported p bk2))
        by (now destruct isOrphan).
      simpl. split; [now rewrite Hs2|]. right. split; [reflexivity|].
      exists b. repeat split; auto.
      * now rewrite Hs2.
      * rewrite Hc2, Hc, <- !app_assoc. reflexivity.
      * congruence.
    + simpl. split; [now rewrite Hs2|].
      exists b, []. repeat split; auto; try apply wrap64_range.
      * now rewrite Hs2.
      * rewrite Hc2, Hc, <- !app_assoc. reflexivity.
      * congruence.
    + simpl. split; [now rewrite Hs2|].
      exists b, [CHeight]. repeat split; auto; try apply wrap64_range.
      * now rewrite Hs2.
      * rewrite Hc2, Hc, <- !app_assoc. reflexivity.
      * congruence.
Qed.

(** ** Whole calls of BlockRequestWorker *)

Lemma worker_body_panics (p : string) (num : Z) bk bk' :
  worker_body p num bk = Panicked bk' -> BlockRequest p num bk = Panicked bk'.
Proof.
  intros H.
  destruct (worker_body_cases p num bk)
    as [(bk1 & E1 & E)|[(bk1 & E1 & E)|[(e & bk1 & E1 & _ & E)
       |(b & bk1 & [isOrphan oe] & bk2 & E1 & Hb & E2 & E)]]];
    rewrite E in H; try discriminate.
  - congruence.
  - destruct isOrphan, oe; discriminate.
Qed.

Lemma worker_loop_sound (p : string) (maxPeerHeight : Z) (fuel : nat) :
  forall num bk,
    sound_schedule p (sched bk) = true ->
    forall bk', worker_loop fuel p maxPeerHeight num bk <> Panicked bk'.
Proof.
  induction fuel as [|fuel IH]; intros num bk Hs bk';
    destruct (Z.leb_spec num maxPeerHeight) as [Hle|Hgt];
    try (rewrite worker_loop_exit by assumption; discriminate).
  - simpl. apply Z.leb_le in Hle. rewrite Hle. discriminate.
  - rewrite worker_loop_step by assumption.
    destruct (worker_body_anatomy p num bk) as (used & n & Hu & _).
    destruct (worker_body p num bk) as [[num'|e] bk1|bk1|bk1] eqn:E;
      simpl in Hu; try discriminate.
    + apply IH. rewrite Hu in Hs. now apply sound_schedule_suffix in Hs.
    + apply worker_body_panics in E.
      now destruct (proj1 (BlockRequest_sound p num bk Hs) bk1).
Qed.

(** X5: when no response of peer [p] in the schedule lacks its block and no
    quit signal lacks its peer, neither [BlockRequest p] nor
    [BlockRequestWorker p] panics, whatever the collaborators answer. *)
Theorem sound_schedule_no_panic (p : string) (bk : blockKeeper) :
  sound_schedule p (sched bk) = true ->
  (forall height bk', BlockRequest p height bk <> Panicked bk')
  /\ (forall maxPeerHeight bk',
         BlockRequestWorker p maxPeerHeight bk <> Panicked bk').
Proof.
  intros Hs. split.
  - intros height. now apply BlockRequest_sound.
  - intros maxPeerHeight bk'. unfold BlockRequestWorker, bind, call_Height.
    now apply worker_loop_sound.
Qed.

Lemma fetch_call_requests (p : string) (maxPeerHeight num : Z) (n : nat) :
  0 <= num <= maxPeerHeight ->
  Forall (fetch_call p maxPeerHeight) (repeat (CRequestBlockByHeight p num) n).
Proof.
  intros H. apply Forall_forall. intros x Hx.
  apply repeat_spec in Hx. subst. simpl. auto.
Qed.

(** One pass: the fetch calls it makes, and the five ways it ends. *)
Lemma worker_body_pass (p : string) (maxPeerHeight num : Z) (bk : blockKeeper) :
  0 <= num <= maxPeerHeight ->
  exists l used bk1,
    Forall (fetch_call p maxPeerHeight) l
    /\ calls bk1 = calls bk ++ l
    /\ sw bk1 = sw bk
    /\ sched bk = used ++ sched bk1
    /\ (worker_body p num bk = Panicked bk1
        \/ worker_body p num bk = Blocked bk1
        \/ worker_body p num bk
           = Done (Return (Some errCommAbnorm)) (dropped p bk1)
        \/ worker_body p num bk
           = Done (Return (Some errScamPeer)) (reported p bk1)
        \/ exists num',
            0 <= num' /\ worker_body p num bk = Done (Continue num') bk1).
Proof.
  intros Hnum.
  destruct (BlockRequest_takes_prefix p num bk) as (used & n & Hu & Hc).
  pose proof (BlockRequest_frame p num bk) as F. cbv zeta in F.
  destruct F as (_ & Hsw & _).
  pose proof (fetch_call_requests p maxPeerHeight num n Hnum) as Hreq.
  destruct (worker_body_cases p num bk)
    as [(bk1 & E1 & E)|[(bk1 & E1 & E)|[(e & bk1 & E1 & _ & E)
       |(b & bk1 & [isOrphan oe] & bk2 & E1 & Hb & E2 & E)]]];
    rewrite E1 in Hu, Hc, Hsw; simpl in Hu, Hc, Hsw.
  - exists (repeat (CRequestBlockByHeight p num) n), used, bk1.
    repeat (split; [assumption|]). left. exact E.
  - exists (repeat (CRequestBlockByHeight p num) n), used, bk1.
    repeat (split; [assumption|]). right. left. exact E.
  - exists (repeat (CRequestBlockByHeight p num) n), used, bk1.
    repeat (split; [assumption|]). right. right. left. exact E.
  - destruct (call_ProcessBlock_frame _ _ _ _ E2) as (Hsw2 & _ & Hs2 & Hc2).
    assert (Hpb : Forall (fetch_call p maxPeerHeight)
                    (repeat (CRequestBlockByHeight p num) n
                     ++ [CProcessBlock (Some b)])).
    { apply Forall_app. split; [exact Hreq|].
      constructor; [|constructor]. exists b. split; [reflexivity|lia]. }
    destruct oe as [e|]; [|destruct isOrphan].
    + exists (repeat (CRequestBlockByHeight p num) n
              ++ [CProcessBlock (Some b)]), used, bk2.
      split; [exact Hpb|]. split; [now rewrite Hc2, Hc, <- app_assoc|].
      split; [congruence|]. split; [now rewrite Hs2|].
      right. right. right. left. rewrite E. now destruct isOrphan.
    + exists (repeat (CRequestBlockByHeight p num) n
              ++ [CProcessBlock (Some b)]), used, bk2.
      split; [exact Hpb|]. split; [now rewrite Hc2, Hc, <- app_assoc|].
      split; [congruence|]. split; [now rewrite Hs2|].
      right. right. right. right. exists (wrap64 (num - 1)).
      split; [apply wrap64_range|exact E].
    + exists ((repeat (CRequestBlockByHeight p num) n
               ++ [CProcessBlock (Some b)]) ++ [CHeight]),
             used, (record CHeight bk2).
      split; [apply Forall_app; split; [exact Hpb|now repeat constructor]|].
      split; [simpl; now rewrite Hc2, Hc, <- !app_assoc|].
      split; [simpl; congruence|]. split; [simpl; now rewrite Hs2|].
      right. right. right. right.
      exists (wrap64 (chain_Height (chain bk2) + 1)).
      split; [apply wrap64_range|exact E].
Qed.

Lemma worker_ending_after
  (p : string) (maxPeerHeight : Z) (bk bk1 : blockKeeper) (l0 : list Call) o :
  calls bk1 = calls bk ++ l0 ->
  Forall (fetch_call p maxPeerHeight) l0 ->
  sw bk1 = sw bk ->
  worker_ending p maxPeerHeight bk1 o ->
  worker_ending p maxPeerHeight bk o.
Proof.
  intros Hc Hq Hsw (l & Hl & H). exists (l0 ++ l). split.
  - apply Forall_app. auto.
  - destruct o as [[e|] bk'|bk'|bk'].
    + destruct H as (bk2 & H1 & H2 & H3). exists bk2.
      rewrite H1, H2, Hc, Hsw, <- app_assoc. auto.
    + destruct H as (H1 & H2). rewrite H1, H2, Hc, Hsw, <- app_assoc. auto.
    + destruct H as (H1 & H2). rewrite H1, H2, Hc, Hsw, <- app_assoc. auto.
    + destruct H as (H1 & H2). rewrite H1, H2, Hc, Hsw, <- app_assoc. auto.
Qed.

(** The loop, from any cursor that is not negative. *)
Lemma worker_loop_ending (p : string) (maxPeerHeight : Z) (fuel : nat) :
  forall num bk,
    0 <= num ->
    worker_ending p maxPeerHeight bk (worker_loop fuel p maxPeerHeight num bk)
    /\ exists used,
        sched bk
        = used ++ sched (final (worker_loop fuel p maxPeerHeight num bk)).
Proof.
  assert (Hnil : forall bk : blockKeeper,
             (exists l, Forall (fetch_call p maxPeerHeight) l
                        /\ calls bk = calls bk ++ l /\ sw bk = sw bk)
             /\ exists used, sched bk = used ++ sched bk).
  { intros bk. split; [exists []|exists []]; simpl; auto.
    rewrite app_nil_r. auto. }
  induction fuel as [|fuel IH]; intros num bk Hnum;
    destruct (Z.leb_spec num maxPeerHeight) as [Hle|Hgt];
    try (rewrite worker_loop_exit by assumption; apply Hnil).
  - simpl. apply Z.leb_le in Hle. rewrite Hle. apply Hnil.
  - rewrite worker_loop_step by assumption.
    destruct (worker_body_pass p maxPeerHeight num bk (conj Hnum Hle))
      as (l & used & bk1 & Hl & Hc & Hsw & Hu
          & [E|[E|[E|[E|(num' & Hnum' & E)]]]]); rewrite E.
    + split; [exists l; auto|exists used; exact Hu].
    + split; [exists l; auto|exists used; exact Hu].
    + split; [|exists used; exact Hu].
      exists l. split; [exact Hl|]. exists bk1. auto.
    + split; [|exists used; exact Hu].
      exists l. split; [exact Hl|]. exists bk1. auto.
    + destruct (IH num' bk1 Hnum') as (He & used' & Hu').
      split.
      * now apply (worker_ending_after p maxPeerHeight bk bk1 l).
      * exists (used ++ used'). rewrite <- app_assoc, <- Hu'. exact Hu.
Qed.

(** X6: how a call of [BlockRequestWorker p maxPeerHeight] can end.  Up to
    its ending it only reads the height, requests blocks from [p] and
    processes blocks: it calls neither [DropPeer] nor [Peer] nor
    [AddScamPeer], and the switch is as it was.  It then returns nil,
    panics or is still waiting, with nothing more done; or it returns
    [errCommAbnorm], and its last step was to drop [p] from the peer set;
    or it returns [errScamPeer], and its last step was to look up [p] and
    report its handle to the switch.  It returns no other error. *)
Theorem BlockRequestWorker_ending
  (p : string) (maxPeerHeight : Z) (bk : blockKeeper) :
  worker_ending p maxPeerHeight bk (BlockRequestWorker p maxPeerHeight bk).
Proof.
  unfold BlockRequestWorker, bind, call_Height.
  apply (worker_ending_after p maxPeerHeight bk (record CHeight bk) [CHeight]).
  - reflexivity.
  - now repeat constructor.
  - reflexivity.
  - apply worker_loop_ending. apply wrap64_range.
Qed.

(** X7: the calls of [BlockRequestWorker p maxPeerHeight], in their order:
    reads of the chain height, requests to [p] of heights between 0 and
    [maxPeerHeight] and [ProcessBlock] of non-nil blocks whose heights are
    between 0 and [maxPeerHeight]; then nothing, or [DropPeer p], or
    [Peer p] followed by [AddScamPeer] with the handle that the peer set
    gives for [p].  No call addresses another peer or handles a
    transaction, and the events are taken from the front of the
    schedule. *)
Theorem BlockRequestWorker_calls
  (p : string) (maxPeerHeight : Z) (bk : blockKeeper) :
  let o := BlockRequestWorker p maxPeerHeight bk in
  exists l tail used,
    calls (final o) = calls bk ++ l ++ tail
    /\ Forall (fetch_call p maxPeerHeight) l
    /\ (tail = []
        \/ tail = [CDropPeer p]
        \/ tail = [CPeer p;
                   CAddScamPeer (getPeer (peers_Peer (peers (final o)) p))])
    /\ sched bk = used ++ sched (final o).
Proof.
  unfold BlockRequestWorker, bind, call_Height.
  destruct (worker_loop_ending p maxPeerHeight
              (S (List.length (sched (record CHeight bk))))
              (wrap64 (chain_Height (chain bk) + 1)) (record CHeight bk))
    as ((l & Hl & H) & used & Hu); [apply wrap64_range|].
  assert (Hl' : Forall (fetch_call p maxPeerHeight) (CHeight :: l))
    by (constructor; [exact I|exact Hl]).
  destruct (worker_loop _ _ _ _ _) as [[e|] bk'|bk'|bk']; simpl in *.
  - destruct H as (bk1 & Hc & _ & [(-> & ->)|(-> & ->)]).
    + exists (CHeight :: l), [CDropPeer p], used.
      repeat split; auto. simpl. rewrite Hc. simpl.
      now rewrite <- !app_assoc.
    + exists (CHeight :: l),
             [CPeer p; CAddScamPeer (getPeer (peers_Peer (peers bk1) p))],
             used.
      repeat split; auto. simpl. rewrite Hc. simpl.
      now rewrite <- !app_assoc.
  - destruct H as (Hc & _). exists (CHeight :: l), [], used.
    repeat split; auto. rewrite Hc. simpl. now rewrite app_nil_r, <- app_assoc.
  - destruct H as (Hc & _). exists (CHeight :: l), [], used.
    repeat split; auto. rewrite Hc. simpl. now rewrite app_nil_r, <- app_assoc.
  - destruct H as (Hc & _). exists (CHeight :: l), [], used.
    repeat split; auto. rewrite Hc. simpl. now rewrite app_nil_r, <- app_assoc.
Qed.

Lemma count_ProcessBlock_requests (p : string) (num : Z) (n : nat) (tl : list Call) :
  filter is_ProcessBlock (repeat (CRequestBlockByHeight p num) n ++ tl)
  = filter is_ProcessBlock tl.
Proof.
  induction n as [|n IH]; simpl; auto.
Qed.

(** The calls of the loop and the responses it takes. *)
Lemma worker_loop_trace (p : string) (maxPeerHeight : Z) (fuel : nat) :
  forall num bk,
    let o := worker_loop fuel p maxPeerHeight num bk in
    exists l used,
      calls (final o) = calls bk ++ l
      /\ sched bk = used ++ sched (final o)
      /\ (List.length (filter is_ProcessBlock l)
          + count_pending (sched (final o))
          <= count_pending (sched bk))%nat.
Proof.
  assert (Hnil : forall bk : blockKeeper,
             exists l used,
               calls bk = calls bk ++ l
               /\ sched bk = used ++ sched bk
               /\ (List.length (filter is_ProcessBlock l)
                   + count_pending (sched bk)
                   <= count_pending (sched bk))%nat).
  { intros bk. exists [], []. simpl. rewrite app_nil_r. auto. }
  induction fuel as [|fuel IH]; intros num bk; cbv zeta;
    destruct (Z.leb_spec num maxPeerHeight) as [Hle|Hgt];
    try (rewrite worker_loop_exit by assumption; apply Hnil).
  - simpl. apply Z.leb_le in Hle. rewrite Hle. apply Hnil.
  - rewrite worker_loop_step by assumption.
    destruct (worker_body_anatomy p num bk) as (used & n & Hu & H).
    assert (Hcnt : (count_pending (sched (final (worker_body p num bk)))
                    <= count_pending (sched bk))%nat).
    { pose proof (f_equal count_pending Hu) as Hf.
      rewrite count_pending_app in Hf. lia. }
    destruct (worker_body p num bk) as [[num'|e] bk1|bk1|bk1] eqn:E;
      simpl in Hu, Hcnt.
    + destruct H as (b & tl & Hb & Hlt & Hc & Htl & _ & Hnum').
      destruct (IH num' bk1) as (l' & used' & H1 & H3 & H4).
      exists (repeat (CRequestBlockByHeight p num) n
              ++ CProcessBlock (Some b) :: tl ++ l'), (used ++ used').
      split; [|split].
      * rewrite H1, Hc, <- !app_assoc. reflexivity.
      * rewrite <- app_assoc, <- H3. exact Hu.
      * rewrite count_ProcessBlock_requests. simpl.
        rewrite filter_app, length_app.
        replace (List.length (filter is_ProcessBlock tl)) with 0%nat
          by (destruct Htl as [-> | ->]; reflexivity).
        simpl. lia.
    + destruct H as [(-> & Hc & _)|(-> & b & Hb & Hlt & Hc & _)].
      * exists (repeat (CRequestBlockByHeight p num) n ++ [CDropPeer p]), used.
        split; [exact Hc|]. split; [exact Hu|].
        rewrite count_ProcessBlock_requests. simpl. exact Hcnt.
      * eexists. exists used. split; [exact Hc|]. split; [exact Hu|].
        rewrite count_ProcessBlock_requests. simpl. lia.
    + destruct H as (Hc & _).
      exists (repeat (CRequestBlockByHeight p num) n), used.
      split; [exact Hc|]. split; [exact Hu|].
      rewrite <- (app_nil_r (repeat _ n)), count_ProcessBlock_requests.
      simpl. exact Hcnt.
    + destruct H as (Hc & _).
      exists (repeat (CRequestBlockByHeight p num) n), used.
      split; [exact Hc|]. split; [exact Hu|].
      rewrite <- (app_nil_r (repeat _ n)), count_ProcessBlock_requests.
      simpl. exact Hcnt.
Qed.

(** X8: [BlockRequestWorker] hands at most one block to [ProcessBlock] for
    each response it takes from the schedule: the number of its
    [ProcessBlock] calls and the number of responses left in the schedule
    add up to at most the number of responses the schedule held. *)
Theorem BlockRequestWorker_one_block_per_response
  (p : string) (maxPeerHeight : Z) (bk : blockKeeper) (l : list Call) :
  calls_since bk (final (BlockRequestWorker p maxPeerHeight bk)) l ->
  (List.length (filter is_ProcessBlock l)
   + count_pending (sched (final (BlockRequestWorker p maxPeerHeight bk)))
   <= count_pending (sched bk))%nat.
Proof.
  unfold calls_since, BlockRequestWorker, bind, call_Height.
  destruct (worker_loop_trace p maxPeerHeight
              (S (List.length (sched (record CHeight bk))))
              (wrap64 (chain_Height (chain bk) + 1)) (record CHeight bk))
    as (l' & used & H1 & _ & H4).
  intros Hl. rewrite H1 in Hl. simpl in Hl.
  rewrite <- app_assoc in Hl. apply app_inv_head in Hl. subst l.
  simpl. exact H4.
Qed.

(** ** IsCaughtUp and BlockRequestWorker *)

Lemma BlockRequest_first_call (p : string) (height : Z) (bk : blockKeeper) :
  exists l,
    calls (final (BlockRequest p height bk))
    = calls bk ++ CRequestBlockByHeight p height :: l.
Proof.
  rewrite BlockRequest_eq, blockRequest_eq. set (bk1 := record _ _).
  destruct (snd (peers_requestBlockByHeight (peers bk) p height)).
  - now exists [].
  - destruct (BlockRequest_wait_trace p height (sched bk1) bk1)
      as (used & _ & H & _).
    eexists. rewrite H. subst bk1. simpl. rewrite <- app_assoc. reflexivity.
Qed.

Lemma worker_body_first_call (p : string) (num : Z) (bk : blockKeeper) :
  exists l,
    calls (final (worker_body p num bk))
    = calls bk ++ CRequestBlockByHeight p num :: l.
Proof.
  destruct (BlockRequest_first_call p num bk) as (l & Hl).
  destruct (worker_body_cases p num bk)
    as [(bk1 & E1 & E)|[(bk1 & E1 & E)|[(e & bk1 & E1 & _ & E)
       |(b & bk1 & [isOrphan oe] & bk2 & E1 & Hb & E2 & E)]]];
    rewrite E; rewrite E1 in Hl; simpl in Hl.
  - now exists l.
  - now exists l.
  - exists (l ++ [CDropPeer p]). simpl. rewrite Hl, <- app_assoc. reflexivity.
  - destruct (call_ProcessBlock_frame _ _ _ _ E2) as (_ & _ & _ & Hc2).
    destruct isOrphan, oe; simpl; eexists;
      rewrite Hc2, Hl, <- !app_assoc; simpl; reflexivity.
Qed.

(** X9: [IsCaughtUp] followed by [BlockRequestWorker] towards the height of
    the best peer, for a local height below the largest [uint64].  When
    [IsCaughtUp] has answered [false], the worker only reads the height and
    returns nil without a request.  When it has answered [true], the
    worker's first request is for the block after the local height. *)
Theorem IsCaughtUp_then_BlockRequestWorker (p : string) (bk : blockKeeper) :
  0 <= chain_Height (chain bk) < uint64_max ->
  (returned (IsCaughtUp bk) = Some false ->
   BlockRequestWorker p (snd (peers_BestPeer (peers bk))) (final (IsCaughtUp bk))
   = Done None (record CHeight (final (IsCaughtUp bk))))
  /\ (returned (IsCaughtUp bk) = Some true ->
      exists l,
        calls (final (BlockRequestWorker p (snd (peers_BestPeer (peers bk)))
                        (final (IsCaughtUp bk))))
        = calls bk
          ++ [CBestPeer; CHeight; CHeight;
              CRequestBlockByHeight p (chain_Height (chain bk) + 1)]
          ++ l).
Proof.
  intros Hh. rewrite IsCaughtUp_eq. simpl.
  set (best := snd (peers_BestPeer (peers bk))).
  set (h := chain_Height (chain bk)) in *.
  set (bk1 := record CHeight (record CBestPeer bk)).
  assert (Hcur : wrap64 (h + 1) = h + 1) by (apply wrap64_id; lia).
  unfold BlockRequestWorker, bind, call_Height.
  change (chain_Height (chain bk1)) with h. rewrite Hcur.
  split; intros Hr; inversion Hr as [Hlt]; clear Hr.
  - apply worker_loop_exit. apply Z.ltb_ge in Hlt. lia.
  - apply Z.ltb_lt in Hlt.
    rewrite worker_loop_step by lia.
    destruct (worker_body_first_call p (h + 1) (record CHeight bk1))
      as (l & Hl).
    destruct (worker_body p (h + 1) (record CHeight bk1))
      as [[num'|e] bk2|bk2|bk2] eqn:E; simpl in Hl.
    + destruct (worker_loop_calls p best
                  (List.length (sched (record CHeight bk1))) num' bk2)
        as (l' & Hl' & _).
      unfold calls_since in Hl'. exists (l ++ l').
      rewrite Hl', Hl. subst bk1. simpl. rewrite <- !app_assoc. reflexivity.
    + exists l. simpl. rewrite Hl. subst bk1. simpl.
      rewrite <- !app_assoc. reflexivity.
    + exists l. simpl. rewrite Hl. subst bk1. simpl.
      rewrite <- !app_assoc. reflexivity.
    + exists l. simpl. rewrite Hl. subst bk1. simpl.
      rewrite <- !app_assoc. reflexivity.
Qed.

(** ** txsProcessWorker, further *)

Lemma txsProcess_body_nil (n : txsNotify) (bk : blockKeeper) :
  tx n = None -> txsProcess_body n bk = Panicked bk.
Proof.
  intros H. unfold txsProcess_body, bind, deref. now rewrite H.
Qed.

(** X10: the worker on a queue in two parts is the worker on the first
    part, followed, when that one comes to its end, by the worker on the
    second part in the state the first one left. *)
Theorem txsProcessWorker_app
  (q1 q2 : list txsNotify) (closed : bool) (bk : blockKeeper) :
  txsProcessWorker (q1 ++ q2) closed bk
  = match txsProcessWorker q1 true bk with
    | Done _ bk' => txsProcessWorker q2 closed bk'
    | Panicked bk' => Panicked bk'
    | Blocked bk' => Blocked bk'
    end.
Proof.
  revert bk. induction q1 as [|n q1 IH]; intros bk; simpl.
  - reflexivity.
  - unfold bind. destruct (txsProcess_body n bk) as [[] bk'|bk'|bk'];
      [apply IH|reflexivity|reflexivity].
Qed.

(** X11: a notification without a transaction stops the worker.  When the
    notifications before it carry their transactions, the worker handles
    those, then panics before any call for the notification without one;
    the notifications behind it are never looked at, whether the queue is
    closed or not. *)
Theorem txsProcessWorker_nil_tx
  (q1 : list txsNotify) (n : txsNotify) (q2 : list txsNotify)
  (closed : bool) (bk : blockKeeper) :
  Forall (fun m => tx m <> None) q1 ->
  tx n = None ->
  exists bk',
    txsProcessWorker q1 true bk = Done tt bk'
    /\ txsProcessWorker (q1 ++ n :: q2) closed bk = Panicked bk'
    /\ filter is_MarkTransaction (calls bk')
       = filter is_MarkTransaction (calls bk) ++ flat_map mark_of q1.
Proof.
  intros Hq Hn.
  destruct (txsProcessWorker_runs q1 true Hq bk) as (bk' & E & Hm).
  exists bk'. split; [exact E|]. split; [|exact Hm].
  clear Hm. revert bk E. induction Hq as [|m q1 Hm _ IH]; intros bk E.
  - simpl in *. inversion E; subst. unfold bind.
    now rewrite (txsProcess_body_nil n bk' Hn).
  - simpl in *. unfold bind in *.
    destruct (txsProcess_body m bk) as [[] bk1|bk1|bk1];
      [now apply IH|discriminate|discriminate].
Qed.

(** X12: the calls of [txsProcessWorker], whatever the queue and the
    verdicts.  For each notification in turn, up to the first one without a
    transaction, they are [MarkTransaction] for the origin peer and the
    transaction's id, [ValidateTx] for the transaction and, only when
    validation fails without the orphan flag, [Peer] for the origin peer and
    one [AddScamPeer] with the handle that the peer set gives for that
    peer; there is no other call (no peer is dropped, no block requested or
    processed), and the schedule of [BlockRequest] is left alone.  The
    chain, the peer set and the switch end as these calls leave them. *)
Theorem txsProcessWorker_calls
  (queue : list txsNotify) (closed : bool) (bk : blockKeeper) :
  let o := txsProcessWorker queue closed bk in
  calls (final o)
  = calls bk ++ ingest_all_calls (carried queue) (collaborators_of bk)
  /\ collaborators_of (final o)
     = ingest_all (carried queue) (collaborators_of bk)
  /\ sched (final o) = sched bk.
Proof.
  revert bk. induction queue as [|n queue IH]; intros bk; simpl.
  - rewrite app_nil_r. destruct closed; auto.
  - unfold bind. destruct (tx n) as [t|] eqn:Ht.
    + destruct (txsProcess_body_effect n t bk Ht) as (bk1 & E & H1 & H2 & H3).
      rewrite E. destruct (IH bk1) as (I1 & I2 & I3).
      simpl. rewrite I1, I2, I3, H1, H2, H3, <- app_assoc. auto.
    + rewrite (txsProcess_body_nil n bk Ht). simpl.
      rewrite app_nil_r. auto.
Qed.

(** ** The ingress *)

Lemma AddBlock_all_spec (items : list (option Block * string)) :
  forall q,
    Z.of_nat (List.length (buf (pendingProcessCh q))) <= cap (pendingProcessCh q) ->
    match AddBlock_all items q with
    | Some q' =>
        Z.of_nat (List.length (buf (pendingProcessCh q)) + List.length items)
        <= cap (pendingProcessCh q)
        /\ buf (pendingProcessCh q')
           = buf (pendingProcessCh q)
             ++ map (fun i => mkPendingResponse (fst i) (snd i)) items
        /\ cap (pendingProcessCh q') = cap (pendingProcessCh q)
        /\ txsProcessCh q' = txsProcessCh q
    | None =>
        cap (pendingProcessCh q)
        < Z.of_nat (List.length (buf (pendingProcessCh q)) + List.length items)
    end.
Proof.
  induction items as [|[b p] items IH]; intros q Hq; simpl.
  - rewrite app_nil_r, Nat.add_0_r. auto.
  - unfold AddBlock, chan_send.
    destruct (Z.ltb_spec (Z.of_nat (List.length (buf (pendingProcessCh q))))
                (cap (pendingProcessCh q))) as [Hlt|Hge].
    + set (q1 := mkIngress _ _).
      assert (Hq1 : Z.of_nat (List.length (buf (pendingProcessCh q1)))
                    <= cap (pendingProcessCh q1)).
      { subst q1. simpl. rewrite length_app. simpl. lia. }
      specialize (IH q1 Hq1).
      destruct (AddBlock_all items q1) as [q'|]; subst q1; simpl in *;
        rewrite length_app in IH; simpl in IH.
      * destruct IH as (H1 & H2 & H3 & H4). repeat split; auto; [lia|].
        rewrite H2, <- app_assoc. reflexivity.
      * lia.
    + lia.
Qed.

(** X13: [AddBlock] on the channel that [newBlockKeeper] made.  Calls in a
    row, with no receive in between, all go through exactly when there are
    at most 1024 of them; the channel then holds the responses in the order
    of the calls, nil blocks included, and the transaction channel is as it
    was.  The call after the 1024th blocks. *)
Theorem AddBlock_backpressure
  (c : Chain) (s : Switch) (ps : PeerSet)
  (items : list (option Block * string)) :
  match AddBlock_all items (snd (newBlockKeeper c s ps)) with
  | Some q =>
      Z.of_nat (List.length items) <= 1024
      /\ buf (pendingProcessCh q)
         = map (fun i => mkPendingResponse (fst i) (snd i)) items
      /\ txsProcessCh q = txsProcessCh (snd (newBlockKeeper c s ps))
      /\ (Z.of_nat (List.length items) = 1024 ->
          forall b p, AddBlock b p q = None)
  | None => 1024 < Z.of_nat (List.length items)
  end.
Proof.
  pose proof (AddBlock_all_spec items (snd (newBlockKeeper c s ps))) as H.
  simpl in H. specialize (H ltac:(unfold maxBlocksPending; lia)).
  destruct (AddBlock_all items _) as [q|]; unfold maxBlocksPending in *.
  - destruct H as (H1 & H2 & H3 & H4). repeat split; auto.
    intros Hfull b p. unfold AddBlock, chan_send.
    rewrite H2, H3, length_map.
    destruct (Z.ltb_spec (Z.of_nat (List.length items)) 1024); [lia|reflexivity].
  - exact H.
Qed.

Lemma AddTx_all_spec (items : list (option Tx * string)) :
  forall q,
    Z.of_nat (List.length (buf (txsProcessCh q))) <= cap (txsProcessCh q) ->
    match AddTx_all items q with
    | Some q' =>
        Z.of_nat (List.length (buf (txsProcessCh q)) + List.length items)
        <= cap (txsProcessCh q)
        /\ buf (txsProcessCh q')
           = buf (txsProcessCh q)
             ++ map (fun i => mkTxsNotify (fst i) (snd i)) items
        /\ cap (txsProcessCh q') = cap (txsProcessCh q)
        /\ pendingProcessCh q' = pendingProcessCh q
    | None =>
        cap (txsProcessCh q)
        < Z.of_nat (List.length (buf (txsProcessCh q)) + List.length items)
    end.
Proof.
  induction items as [|[t p] items IH]; intros q Hq; simpl.
  - rewrite app_nil_r, Nat.add_0_r. auto.
  - unfold AddTx, chan_send.
    destruct (Z.ltb_spec (Z.of_nat (List.length (buf (txsProcessCh q))))
                (cap (txsProcessCh q))) as [Hlt|Hge].
    + set (q1 := mkIngress _ _).
      assert (Hq1 : Z.of_nat (List.length (buf (txsProcessCh q1)))
                    <= cap (txsProcessCh q1)).
      { subst q1. simpl. rewrite length_app. simpl. lia. }
      specialize (IH q1 Hq1).
      destruct (AddTx_all items q1) as [q'|]; subst q1; simpl in *;
        rewrite length_app in IH; simpl in IH.
      * destruct IH as (H1 & H2 & H3 & H4). repeat split; auto; [lia|].
        rewrite H2, <- app_assoc. reflexivity.
      * lia.
    + lia.
Qed.

Lemma carried_notifications (items : list (Tx * string)) :
  carried (map (fun i : Tx * string => mkTxsNotify (Some (fst i)) (snd i)) items)
  = items.
Proof.
  induction items as [|[t p] items IH]; simpl; [reflexivity|].
  now rewrite IH.
Qed.

(** X14: from [AddTx] to the worker.  Transactions handed to [AddTx] on the
    channel that [newBlockKeeper] made, with no receive in between, go
    through exactly when there are at most 32768 of them.  The worker that
    then ranges over the channel, closed behind them, returns after it has
    ingested every one of them in the order of the [AddTx] calls: the peer
    set has each transaction marked for the peer it was added with, the
    chain has validated each, and the switch has been told of each peer
    whose transaction failed validation without being an orphan. *)
Theorem AddTx_then_txsProcessWorker
  (c : Chain) (s : Switch) (ps : PeerSet)
  (items : list (Tx * string)) (bk : blockKeeper) :
  match AddTx_all (map (fun i => (Some (fst i), snd i)) items)
          (snd (newBlockKeeper c s ps)) with
  | Some q =>
      Z.of_nat (List.length items) <= 32768
      /\ exists bk',
          txsProcessWorker (buf (txsProcessCh q)) true bk = Done tt bk'
          /\ collaborators_of bk' = ingest_all items (collaborators_of bk)
          /\ peers bk' = mark_all items (peers bk)
          /\ sched bk' = sched bk
  | None => 32768 < Z.of_nat (List.length items)
  end.
Proof.
  pose proof (AddTx_all_spec (map (fun i => (Some (fst i), snd i)) items)
                (snd (newBlockKeeper c s ps))) as H.
  simpl in H. specialize (H ltac:(unfold maxtxsPending; lia)).
  rewrite length_map in H. unfold maxtxsPending in H.
  destruct (AddTx_all _ _) as [q|]; [|exact H].
  destruct H as (H1 & H2 & _). split; [exact H1|].
  rewrite H2, map_map. simpl.
  set (queue := map (fun i : Tx * string => mkTxsNotify (Some (fst i)) (snd i))
                    items).
  assert (Hq : Forall (fun n => tx n <> None) queue).
  { apply Forall_forall. intros n Hn. apply in_map_iff in Hn.
    destruct Hn as (i & <- & _). discriminate. }
  destruct (txsProcessWorker_runs queue true Hq bk) as (bk' & E & _).
  destruct (txsProcessWorker_final queue true bk) as (F1 & F2).
  rewrite E in F1, F2. simpl in F1, F2.
  unfold queue in F1. rewrite carried_notifications in F1.
  exists bk'. split; [exact E|]. split; [exact F1|]. split; [|exact F2].
  pose proof (f_equal (fun x => snd (fst x)) F1) as Hp. simpl in Hp.
  rewrite Hp. unfold collaborators_of. apply ingest_all_peers.
Qed.

(** X15: from [AddBlock] to [BlockRequest].  A block added for peer [p]
    behind responses that do not answer the request for its height is the
    block that [BlockRequest p] returns for that height, once its request
    is dispatched and the [select] takes the responses of the channel in
    their order; the responses in front of it are taken and lost. *)
Theorem AddBlock_then_BlockRequest
  (b : Block) (p : string) (q q' : ingress)
  (bk bk1 : blockKeeper) (later : list Event) :
  AddBlock (Some b) p q = Some q' ->
  Forall (mismatching p (Height b)) (buf (pendingProcessCh q)) ->
  blockRequest p (Height b) bk = Done None bk1 ->
  sched bk = map EvPending (buf (pendingProcessCh q')) ++ later ->
  BlockRequest p (Height b) bk = Done (Some b, None) (set_sched later bk1).
Proof.
  intros Ha Hmis Hd Hs.
  unfold AddBlock, chan_send in Ha.
  destruct (Z.of_nat (List.length (buf (pendingProcessCh q)))
            <? cap (pendingProcessCh q)); [|discriminate].
  inversion Ha; subst q'; clear Ha. simpl in Hs.
  rewrite map_app, <- app_assoc in Hs. simpl in Hs.
  rewrite BlockRequest_eq, Hd.
  destruct (blockRequest_frame _ _ _ _ _ Hd) as (_ & _ & Hs1 & _).
  rewrite Hs1, Hs.
  rewrite (BlockRequest_wait_Waits p (Height b) _ bk1 bk1
             (Waits_mismatching p (Height b) _ bk1 Hmis)).
  now apply BlockRequest_wait_match.
Qed.

End MoreProperties.

(** * The further properties on concrete runs *)

Lemma BlockRequest_match_after_waiting_witness :
  BlockRequest "a" 11 Runs.late_answer
  = Done (Some (Mock.good_block 11), None)
         (set_sched [EvSyncTimeout]
            (final (blockRequest "a" 11
                      (final (blockRequest "a" 11 Runs.late_answer))))).
Proof.
  apply (BlockRequest_match_after_waiting "a" 11 Runs.late_answer
           (final (blockRequest "a" 11 Runs.late_answer))
           Runs.idle_events
           (mkPendingResponse (Some (Mock.good_block 11)) "a")
           (Mock.good_block 11) [EvSyncTimeout]).
  - reflexivity.
  - reflexivity.
  - apply waits_pending; [left; discriminate|].
    eapply waits_retry; [reflexivity|].
    apply waits_quit; [discriminate|apply waits_done].
  - reflexivity.
  - reflexivity.
  - reflexivity.
Defined.

Lemma BlockRequest_block_source_witness :
  exists pre r,
    sched Mock.crossed
    = pre ++ EvPending r :: sched (final (BlockRequest "a" 11 Mock.crossed))
    /\ peerID r = "a"%string
    /\ block r = Some (Mock.good_block 11)
    /\ Height (Mock.good_block 11) = 11
    /\ @None error = None.
Proof.
  apply (BlockRequest_block_source "a" 11 Mock.crossed (Mock.good_block 11)
           None (final (BlockRequest "a" 11 Mock.crossed))).
  reflexivity.
Defined.

Lemma BlockRequest_keeps_waiting_witness :
  BlockRequest "a" 11 Runs.idle
  = Blocked (set_sched []
               (final (blockRequest "a" 11
                         (final (blockRequest "a" 11 Runs.idle))))).
Proof.
  apply (BlockRequest_keeps_waiting "a" 11 Runs.idle
           (final (blockRequest "a" 11 Runs.idle))).
  - reflexivity.
  - apply waits_pending; [left; discriminate|].
    eapply waits_retry; [reflexivity|].
    apply waits_quit; [discriminate|apply waits_done].
Defined.

Lemma BlockRequest_nil_pointers_witness :
  BlockRequest "a" 11 Runs.nil_response
  = Panicked (set_sched [EvSyncTimeout]
                (final (blockRequest "a" 11 Runs.nil_response))).
Proof.
  destruct (BlockRequest_nil_pointers "a" 11 Runs.nil_response
              (final (blockRequest "a" 11 Runs.nil_response))
              (final (blockRequest "a" 11 Runs.nil_response))
              [Mock.from_peer "b" (Mock.good_block 11)] [EvSyncTimeout])
    as (H & _).
  - reflexivity.
  - apply waits_pending; [left; discriminate|apply waits_done].
  - apply (H "a"%string); reflexivity.
Defined.

Lemma sound_schedule_no_panic_witness :
  BlockRequest "a" 11 Mock.crossed <> Panicked Mock.crossed
  /\ BlockRequestWorker "a" 13 Mock.crossed <> Panicked Mock.crossed.
Proof.
  destruct (sound_schedule_no_panic "a" Mock.crossed eq_refl) as (H1 & H2).
  split; [apply H1|apply H2].
Defined.

Lemma BlockRequestWorker_one_block_per_response_witness :
  (List.length
     (filter is_ProcessBlock
        [CHeight; CRequestBlockByHeight "a"%string 11;
         CProcessBlock (Some (Mock.good_block 11)); CHeight;
         CRequestBlockByHeight "a"%string 12;
         CProcessBlock (Some (Mock.good_block 12)); CHeight;
         CRequestBlockByHeight "a"%string 13;
         CProcessBlock (Some (Mock.good_block 13)); @CHeight Mock.collaborators])
   + count_pending
       (sched (final (BlockRequestWorker "a" 13 Mock.three_blocks)))
   <= count_pending (sched Mock.three_blocks))%nat.
Proof.
  apply (BlockRequestWorker_one_block_per_response "a" 13 Mock.three_blocks).
  reflexivity.
Defined.

Lemma IsCaughtUp_then_BlockRequestWorker_witness :
  exists l,
    calls (final (BlockRequestWorker "a" 13 (final (IsCaughtUp Mock.three_blocks))))
    = [CBestPeer; CHeight; CHeight; CRequestBlockByHeight "a"%string 11] ++ l.
Proof.
  destruct (IsCaughtUp_then_BlockRequestWorker "a" Mock.three_blocks)
    as (_ & H).
  - unfold uint64_max. simpl. lia.
  - destruct (H eq_refl) as (l & Hl). exists l. exact Hl.
Defined.

Lemma txsProcessWorker_nil_tx_witness :
  exists bk',
    txsProcessWorker [Mock.notify "a" 1] true
      (Mock.keeper_on Mock.tx_chain Mock.two_peers [])
    = Done tt bk'
    /\ txsProcessWorker
         ([Mock.notify "a" 1] ++ mkTxsNotify None "b" :: [Mock.notify "a" 3])
         false (Mock.keeper_on Mock.tx_chain Mock.two_peers [])
       = Panicked bk'
    /\ filter is_MarkTransaction (calls bk')
       = filter is_MarkTransaction
           (calls (Mock.keeper_on Mock.tx_chain Mock.two_peers []))
         ++ flat_map mark_of [Mock.notify "a" 1].
Proof.
  apply (txsProcessWorker_nil_tx [Mock.notify "a" 1] (mkTxsNotify None "b")
           [Mock.notify "a" 3] false
           (Mock.keeper_on Mock.tx_chain Mock.two_peers [])).
  - repeat constructor. discriminate.
  - reflexivity.
Defined.

Lemma AddBlock_then_BlockRequest_witness :
  BlockRequest "a" 11 Runs.from_channel
  = Done (Some (Mock.good_block 11), None)
         (set_sched [EvSyncTimeout]
            (final (blockRequest "a" 11 Runs.from_channel))).
Proof.
  apply (AddBlock_then_BlockRequest (Mock.good_block 11) "a"
           Runs.one_added Runs.two_added Runs.from_channel
           (final (blockRequest "a" 11 Runs.from_channel)) [EvSyncTimeout]).
  - reflexivity.
  - apply Forall_cons; [|apply Forall_nil].
    right. exists (Mock.good_block 12). split; [reflexivity|discriminate].
  - reflexivity.
  - reflexivity.
Defined.

(** The channels of the run above are what two [AddBlock] calls leave in the
    channels of a new block keeper. *)
Example AddBlock_twice :
  AddBlock_all [(Some (Mock.good_block 12), "a"%string);
                (Some (Mock.good_block 11), "a"%string)] Runs.fresh
  = Some Runs.two_added.
Proof. reflexivity. Qed.
